(** * AR Voxel: gesture-to-lattice placement engine

    A shallow embedding of the placement core of the [App] component: pinch detection
    on the hand landmarks, the screen-to-world projection with grid snapping,
    the store of placed cubes and the per-frame callback [hands.onResults].

    Numbers.  The hand landmarks and the pinch test are binary64, as in the
    program: the coordinates are primitive floating-point numbers, and the
    distance of the two tips, the threshold, the comparison [<] and the
    midpoint are computed with the IEEE 754 operations, with their rounding,
    [NaN] and the infinities.  The projection (the matrices of three.js, the
    unprojection and the snap) is modelled in real numbers: there the model
    covers the finite values and computes with them exactly, it starts from
    the value of the binary64 midpoint (a midpoint that is [NaN] or infinite
    is outside of it), and [===] becomes a boolean through the decision
    procedure of the real numbers.

    Objects.  The React refs of the component are the fields of [AppState];
    every handler is a function on [AppState].  Two kinds of objects are
    reachable from two places: the preview cube (a child of the scene and
    the target of [previewCubeRef]) is only written through the ref, and the
    placed cubes (children of the scene and elements of [placedCubesRef])
    are not written after their creation; positions are handed over with
    [Vector3.copy], which copies coordinates.  So objects are modelled by
    value.

    Library code (three.js) is embedded from its source as far as the
    component calls it. *)

From Stdlib Require Import Floats.
From Stdlib Require Import Reals Lra Lia List Bool ZArith Arith.
Import ListNotations.

Local Open Scope R_scope.

(** ** JavaScript primitives *)

Module JS.

(** [a === b] on numbers. *)
Definition strict_eq (a b : R) : bool := if Req_EM_T a b then true else false.

(** [a || b] on numbers: [0] is the falsy number. *)
Definition or_else (a b : R) : R := if strict_eq a 0 then b else a.

(** [Math.round]: the integer closest to [x], ties going towards +infinity. *)
Definition Math_round (x : R) : R := IZR (Zfloor (x + / 2)).

Definition Math_sqrt (x : R) : R := sqrt x.

Definition Math_tan (x : R) : R := tan x.

Definition Math_PI : R := PI.

(** *** Binary64 numbers *)

(** [a < b]: false when either side is [NaN]. *)
Definition lt (a b : float) : bool := (a <? b)%float.

(** [Math.pow(b, 2)]: for the exponent 2 the result is the product
    [b * b], rounded once. *)
Definition Math_pow2 (b : float) : float := (b * b)%float.

(** The real number a binary64 number stands for.  The zeros give 0; [NaN]
    and the infinities stand for no real number and are sent to 0, so what
    is computed from them in real numbers says nothing about the program. *)
Definition value (f : float) : R :=
  match Prim2SF f with
  | S754_finite s m e => IZR (if s then Zneg m else Zpos m) * powerRZ 2 e
  | _ => 0
  end.

(** [Number.isFinite]. *)
Definition isFinite (f : float) : bool :=
  match Prim2SF f with
  | S754_finite _ _ _ | S754_zero _ => true
  | _ => false
  end.

End JS.

(** ** The part of three.js the component calls *)

Module Vector3.

Record t : Type := mk { x : R; y : R; z : R }.

(** [new THREE.Vector3()] *)
Definition new : t := mk 0 0 0.

Definition clone (v : t) : t := mk (x v) (y v) (z v).

Definition add (v w : t) : t := mk (x v + x w) (y v + y w) (z v + z w).

Definition sub (v w : t) : t := mk (x v - x w) (y v - y w) (z v - z w).

Definition multiplyScalar (v : t) (s : R) : t := mk (x v * s) (y v * s) (z v * s).

Definition divideScalar (v : t) (s : R) : t := multiplyScalar v (1 / s).

Definition length (v : t) : R :=
  JS.Math_sqrt (x v * x v + y v * y v + z v * z v).

(** [this.divideScalar(this.length() || 1)] *)
Definition normalize (v : t) : t := divideScalar v (JS.or_else (length v) 1).

(** [(v.x === this.x) && (v.y === this.y) && (v.z === this.z)] *)
Definition equals (this v : t) : bool :=
  JS.strict_eq (x v) (x this) && JS.strict_eq (y v) (y this) && JS.strict_eq (z v) (z this).

End Vector3.

Module Matrix4.

(** The sixteen [elements], column-major as in three.js. *)
Record t : Type := mk {
  e0 : R; e1 : R; e2 : R; e3 : R;
  e4 : R; e5 : R; e6 : R; e7 : R;
  e8 : R; e9 : R; e10 : R; e11 : R;
  e12 : R; e13 : R; e14 : R; e15 : R
}.

(** [new THREE.Matrix4()] *)
Definition identity : t := mk 1 0 0 0  0 1 0 0  0 0 1 0  0 0 0 1.

Definition zero : t := mk 0 0 0 0  0 0 0 0  0 0 0 0  0 0 0 0.

(** [this.multiplyMatrices(a, b)]: the product [a * b]. *)
Definition multiplyMatrices (a b : t) : t :=
  let a11 := e0 a in let a12 := e4 a in let a13 := e8 a in let a14 := e12 a in
  let a21 := e1 a in let a22 := e5 a in let a23 := e9 a in let a24 := e13 a in
  let a31 := e2 a in let a32 := e6 a in let a33 := e10 a in let a34 := e14 a in
  let a41 := e3 a in let a42 := e7 a in let a43 := e11 a in let a44 := e15 a in
  let b11 := e0 b in let b12 := e4 b in let b13 := e8 b in let b14 := e12 b in
  let b21 := e1 b in let b22 := e5 b in let b23 := e9 b in let b24 := e13 b in
  let b31 := e2 b in let b32 := e6 b in let b33 := e10 b in let b34 := e14 b in
  let b41 := e3 b in let b42 := e7 b in let b43 := e11 b in let b44 := e15 b in
  mk (a11 * b11 + a12 * b21 + a13 * b31 + a14 * b41)
     (a21 * b11 + a22 * b21 + a23 * b31 + a24 * b41)
     (a31 * b11 + a32 * b21 + a33 * b31 + a34 * b41)
     (a41 * b11 + a42 * b21 + a43 * b31 + a44 * b41)
     (a11 * b12 + a12 * b22 + a13 * b32 + a14 * b42)
     (a21 * b12 + a22 * b22 + a23 * b32 + a24 * b42)
     (a31 * b12 + a32 * b22 + a33 * b32 + a34 * b42)
     (a41 * b12 + a42 * b22 + a43 * b32 + a44 * b42)
     (a11 * b13 + a12 * b23 + a13 * b33 + a14 * b43)
     (a21 * b13 + a22 * b23 + a23 * b33 + a24 * b43)
     (a31 * b13 + a32 * b23 + a33 * b33 + a34 * b43)
     (a41 * b13 + a42 * b23 + a43 * b33 + a44 * b43)
     (a11 * b14 + a12 * b24 + a13 * b34 + a14 * b44)
     (a21 * b14 + a22 * b24 + a23 * b34 + a24 * b44)
     (a31 * b14 + a32 * b24 + a33 * b34 + a34 * b44)
     (a41 * b14 + a42 * b24 + a43 * b34 + a44 * b44).

Definition determinant (m : t) : R :=
  let n11 := e0 m in let n21 := e1 m in let n31 := e2 m in let n41 := e3 m in
  let n12 := e4 m in let n22 := e5 m in let n32 := e6 m in let n42 := e7 m in
  let n13 := e8 m in let n23 := e9 m in let n33 := e10 m in let n43 := e11 m in
  let n14 := e12 m in let n24 := e13 m in let n34 := e14 m in let n44 := e15 m in
  let t11 := n23 * n34 * n42 - n24 * n33 * n42 + n24 * n32 * n43
             - n22 * n34 * n43 - n23 * n32 * n44 + n22 * n33 * n44 in
  let t12 := n14 * n33 * n42 - n13 * n34 * n42 - n14 * n32 * n43
             + n12 * n34 * n43 + n13 * n32 * n44 - n12 * n33 * n44 in
  let t13 := n13 * n24 * n42 - n14 * n23 * n42 + n14 * n22 * n43
             - n12 * n24 * n43 - n13 * n22 * n44 + n12 * n23 * n44 in
  let t14 := n14 * n23 * n32 - n13 * n24 * n32 - n14 * n22 * n33
             + n12 * n24 * n33 + n13 * n22 * n34 - n12 * n23 * n34 in
  n11 * t11 + n21 * t12 + n31 * t13 + n41 * t14.

(** [invert()]: the adjugate divided by the determinant; the zero matrix
    when the determinant is [0]. *)
Definition invert (m : t) : t :=
  let n11 := e0 m in let n21 := e1 m in let n31 := e2 m in let n41 := e3 m in
  let n12 := e4 m in let n22 := e5 m in let n32 := e6 m in let n42 := e7 m in
  let n13 := e8 m in let n23 := e9 m in let n33 := e10 m in let n43 := e11 m in
  let n14 := e12 m in let n24 := e13 m in let n34 := e14 m in let n44 := e15 m in
  let t11 := n23 * n34 * n42 - n24 * n33 * n42 + n24 * n32 * n43
             - n22 * n34 * n43 - n23 * n32 * n44 + n22 * n33 * n44 in
  let t12 := n14 * n33 * n42 - n13 * n34 * n42 - n14 * n32 * n43
             + n12 * n34 * n43 + n13 * n32 * n44 - n12 * n33 * n44 in
  let t13 := n13 * n24 * n42 - n14 * n23 * n42 + n14 * n22 * n43
             - n12 * n24 * n43 - n13 * n22 * n44 + n12 * n23 * n44 in
  let t14 := n14 * n23 * n32 - n13 * n24 * n32 - n14 * n22 * n33
             + n12 * n24 * n33 + n13 * n22 * n34 - n12 * n23 * n34 in
  let det := n11 * t11 + n21 * t12 + n31 * t13 + n41 * t14 in
  if JS.strict_eq det 0 then zero
  else
    let detInv := 1 / det in
    mk (t11 * detInv)
       ((n24 * n33 * n41 - n23 * n34 * n41 - n24 * n31 * n43
         + n21 * n34 * n43 + n23 * n31 * n44 - n21 * n33 * n44) * detInv)
       ((n22 * n34 * n41 - n24 * n32 * n41 + n24 * n31 * n42
         - n21 * n34 * n42 - n22 * n31 * n44 + n21 * n32 * n44) * detInv)
       ((n23 * n32 * n41 - n22 * n33 * n41 - n23 * n31 * n42
         + n21 * n33 * n42 + n22 * n31 * n43 - n21 * n32 * n43) * detInv)
       (t12 * detInv)
       ((n13 * n34 * n41 - n14 * n33 * n41 + n14 * n31 * n43
         - n11 * n34 * n43 - n13 * n31 * n44 + n11 * n33 * n44) * detInv)
       ((n14 * n32 * n41 - n12 * n34 * n41 - n14 * n31 * n42
         + n11 * n34 * n42 + n12 * n31 * n44 - n11 * n32 * n44) * detInv)
       ((n12 * n33 * n41 - n13 * n32 * n41 + n13 * n31 * n42
         - n11 * n33 * n42 - n12 * n31 * n43 + n11 * n32 * n43) * detInv)
       (t13 * detInv)
       ((n14 * n23 * n41 - n13 * n24 * n41 - n14 * n21 * n43
         + n11 * n24 * n43 + n13 * n21 * n44 - n11 * n23 * n44) * detInv)
       ((n12 * n24 * n41 - n14 * n22 * n41 + n14 * n21 * n42
         - n11 * n24 * n42 - n12 * n21 * n44 + n11 * n22 * n44) * detInv)
       ((n13 * n22 * n41 - n12 * n23 * n41 - n13 * n21 * n42
         + n11 * n23 * n42 + n12 * n21 * n43 - n11 * n22 * n43) * detInv)
       (t14 * detInv)
       ((n13 * n24 * n31 - n14 * n23 * n31 + n14 * n21 * n33
         - n11 * n24 * n33 - n13 * n21 * n34 + n11 * n23 * n34) * detInv)
       ((n14 * n22 * n31 - n12 * n24 * n31 - n14 * n21 * n32
         + n11 * n24 * n32 + n12 * n21 * n34 - n11 * n22 * n34) * detInv)
       ((n12 * n23 * n31 - n13 * n22 * n31 + n13 * n21 * n32
         - n11 * n23 * n32 - n12 * n21 * n33 + n11 * n22 * n33) * detInv).

(** [makePerspective(left, right, top, bottom, near, far)] in the WebGL
    coordinate system. *)
Definition makePerspective (left right top bottom near far : R) : t :=
  let x := 2 * near / (right - left) in
  let y := 2 * near / (top - bottom) in
  let a := (right + left) / (right - left) in
  let b := (top + bottom) / (top - bottom) in
  let c := - (far + near) / (far - near) in
  let d := (- 2 * far * near) / (far - near) in
  mk x 0 0 0
     0 y 0 0
     a b c (- 1)
     0 0 d 0.

End Matrix4.

(** [Vector3.applyMatrix4(m)]: the affine image with the perspective divide. *)
Definition applyMatrix4 (v : Vector3.t) (m : Matrix4.t) : Vector3.t :=
  let x := Vector3.x v in let y := Vector3.y v in let z := Vector3.z v in
  let w := 1 / (Matrix4.e3 m * x + Matrix4.e7 m * y + Matrix4.e11 m * z + Matrix4.e15 m) in
  Vector3.mk
    ((Matrix4.e0 m * x + Matrix4.e4 m * y + Matrix4.e8 m * z + Matrix4.e12 m) * w)
    ((Matrix4.e1 m * x + Matrix4.e5 m * y + Matrix4.e9 m * z + Matrix4.e13 m) * w)
    ((Matrix4.e2 m * x + Matrix4.e6 m * y + Matrix4.e10 m * z + Matrix4.e14 m) * w).

Module PerspectiveCamera.

Record t : Type := mk {
  fov : R; aspect : R; near : R; far : R;
  position : Vector3.t;
  projectionMatrix : Matrix4.t;
  projectionMatrixInverse : Matrix4.t;
  matrixWorld : Matrix4.t
}.

Definition DEG2RAD : R := JS.Math_PI / 180.

(** [updateProjectionMatrix()], with the default [zoom = 1], no view offset
    and no film offset. *)
Definition updateProjectionMatrix (c : t) : t :=
  let top := near c * JS.Math_tan (DEG2RAD * (5 / 10) * fov c) / 1 in
  let height := 2 * top in
  let width := aspect c * height in
  let left := - (5 / 10) * width in
  let p := Matrix4.makePerspective left (left + width) top (top - height)
                                   (near c) (far c) in
  mk (fov c) (aspect c) (near c) (far c) (position c)
     p (Matrix4.invert p) (matrixWorld c).

(** [new THREE.PerspectiveCamera(fov, aspect, near, far)]: at the origin,
    looking down the negative z axis, world matrix the identity. *)
Definition new (fov aspect near far : R) : t :=
  updateProjectionMatrix
    (mk fov aspect near far Vector3.new
        Matrix4.identity Matrix4.identity Matrix4.identity).

(** [camera.position.set(x, y, z)] *)
Definition position_set (c : t) (x y z : R) : t :=
  mk (fov c) (aspect c) (near c) (far c) (Vector3.mk x y z)
     (projectionMatrix c) (projectionMatrixInverse c) (matrixWorld c).

(** [camera.aspect = a] *)
Definition set_aspect (c : t) (a : R) : t :=
  mk (fov c) a (near c) (far c) (position c)
     (projectionMatrix c) (projectionMatrixInverse c) (matrixWorld c).

End PerspectiveCamera.

(** [Vector3.unproject(camera)] *)
Definition unproject (v : Vector3.t) (camera : PerspectiveCamera.t) : Vector3.t :=
  applyMatrix4
    (applyMatrix4 v (PerspectiveCamera.projectionMatrixInverse camera))
    (PerspectiveCamera.matrixWorld camera).

(** ** Constants of the component *)

Definition GRID_SIZE : R := 1.
(** The literal [0.045] denotes the binary64 number nearest to 45/1000. *)
#[warnings="-inexact-float"] Definition PINCH_THRESHOLD : float := 0.045%float.
Definition BUILD_DISTANCE : R := 6.

(** ** Screen to snapped world coordinates *)

(** MediaPipe's (0,0) is the top-left corner; NDC runs from -1 to 1. *)
Definition ndcX (x : R) : R := (x * 2) - 1.
Definition ndcY (y : R) : R := - (y * 2) + 1.

(** The point [BUILD_DISTANCE] away from the camera on the ray through the
    screen point. *)
Definition targetPos (camera : PerspectiveCamera.t) (x y : R) : Vector3.t :=
  let vector := unproject (Vector3.mk (ndcX x) (ndcY y) (5 / 10)) camera in
  let dir := Vector3.normalize (Vector3.sub vector (PerspectiveCamera.position camera)) in
  Vector3.add (Vector3.clone (PerspectiveCamera.position camera))
              (Vector3.multiplyScalar dir BUILD_DISTANCE).

(** The snapping of one coordinate. *)
Definition snap (c : R) : R := JS.Math_round (c / GRID_SIZE) * GRID_SIZE.

(** [ndcX], [ndcY], [targetPos] and the three [Math.round] expressions are
    the locals of the source function, named here. *)
Definition getSnappedWorldPosition
    (cameraRef : option PerspectiveCamera.t) (x y : R) : Vector3.t :=
  match cameraRef with
  | None => Vector3.new
  | Some camera =>
      let p := targetPos camera x y in
      Vector3.mk (snap (Vector3.x p)) (snap (Vector3.y p)) (snap (Vector3.z p))
  end.


(** ** Hand-tracking results ([types.ts]) *)

Module Landmark.

(** The coordinates are the binary64 numbers the hand tracker delivers. *)
Record t : Type := mk { x : float; y : float; z : float }.

End Landmark.

Definition HandLandmarks : Type := list Landmark.t.

(** [multiHandLandmarks] is tested for truthiness by the callback, so it may
    be absent. *)
Record HandResults : Type := mkHandResults {
  multiHandLandmarks : option (list HandLandmarks)
}.

(** ** Scene objects *)

Module Group.

(** A [THREE.Group], reduced to the two properties the component writes. *)
Record t : Type := mk { position : Vector3.t; visible : bool }.

(** [new THREE.Group()]: at the origin and visible. *)
Definition new : t := mk Vector3.new true.

(** [g.position.copy(v)] *)
Definition position_copy (g : t) (v : Vector3.t) : t :=
  mk (Vector3.mk (Vector3.x v) (Vector3.y v) (Vector3.z v)) (visible g).

(** [g.visible = b] *)
Definition set_visible (g : t) (b : bool) : t := mk (position g) b.

(** Object identity, read on values: placed cubes are never written after
    their creation and sit at pairwise different positions. *)
Definition same (a b : t) : bool :=
  Vector3.equals (position a) (position b) && Bool.eqb (visible a) (visible b).

End Group.

Module Scene.

(** The children added by [placeBlock].  The lights and the preview cube are
    children too; no modelled operation reaches them through the scene. *)
Record t : Type := mk { children : list Group.t }.

Definition new : t := mk [].

Definition add (s : t) (o : Group.t) : t := mk (children s ++ [o]).

Fixpoint splice_out (o : Group.t) (l : list Group.t) : list Group.t :=
  match l with
  | [] => []
  | c :: l' => if Group.same c o then l' else c :: splice_out o l'
  end.

Definition remove (s : t) (o : Group.t) : t := mk (splice_out o (children s)).

End Scene.

(** ** The state behind the refs and hooks of [App] *)

Record AppState : Type := mkAppState {
  sceneRef : option Scene.t;
  cameraRef : option PerspectiveCamera.t;
  previewCubeRef : option Group.t;
  placedCubesRef : list Group.t;
  lastPinchStateRef : bool;
  blockCount : nat
}.

(** The state of the first render. *)
Definition initialState : AppState := mkAppState None None None [] false 0.

(** ** Three.js initialisation effect *)

(** [createVoxel(color, opacity, outlineColor)]: the style does not enter the
    model. *)
Definition createVoxel : Group.t := Group.new.

(** The first [useEffect]; [containerReady] and [videoReady] say whether
    [containerRef.current] and [videoRef.current] are set. *)
Definition initThree (containerReady videoReady : bool)
    (innerWidth innerHeight : R) (st : AppState) : AppState :=
  if negb containerReady || negb videoReady then st
  else
    let scene := Scene.new in
    let camera := PerspectiveCamera.new 70 (innerWidth / innerHeight) (1 / 100) 100 in
    let camera := PerspectiveCamera.position_set camera 0 0 0 in
    let preview := Group.set_visible createVoxel false in
    mkAppState (Some scene) (Some camera) (Some preview)
               (placedCubesRef st) (lastPinchStateRef st) (blockCount st).

(** [handleResize], registered by the effect above on the camera it created. *)
Definition handleResize (innerWidth innerHeight : R) (st : AppState) : AppState :=
  match cameraRef st with
  | None => st
  | Some camera =>
      let camera :=
        PerspectiveCamera.updateProjectionMatrix
          (PerspectiveCamera.set_aspect camera (innerWidth / innerHeight)) in
      mkAppState (sceneRef st) (Some camera) (previewCubeRef st)
                 (placedCubesRef st) (lastPinchStateRef st) (blockCount st)
  end.

(** ** The store of placed cubes *)

(** [placedCubesRef.current.some(c => c.position.equals(position))] *)
Definition exists_at (position : Vector3.t) (cubes : list Group.t) : bool :=
  existsb (fun c => Vector3.equals (Group.position c) position) cubes.

Definition placeBlock (position : Vector3.t) (st : AppState) : AppState :=
  match sceneRef st with
  | None => st
  | Some scene =>
      if exists_at position (placedCubesRef st) then st
      else
        let voxel := Group.position_copy Group.new position in
        mkAppState (Some (Scene.add scene voxel)) (cameraRef st) (previewCubeRef st)
                   (placedCubesRef st ++ [voxel]) (lastPinchStateRef st)
                   (blockCount st + 1)
  end.

Definition resetScene (st : AppState) : AppState :=
  match sceneRef st with
  | None => st
  | Some scene =>
      mkAppState (Some (fold_left Scene.remove (placedCubesRef st) scene))
                 (cameraRef st) (previewCubeRef st) [] (lastPinchStateRef st) 0
  end.

(** ** The per-frame callback *)

(** The pinch test is computed in binary64 arithmetic, as the program does:
    every subtraction, square, sum and the square root rounds, and the
    comparison is the one of binary64 numbers (false on [NaN]). *)
Definition dist (thumbTip indexTip : Landmark.t) : float :=
  PrimFloat.sqrt
    (JS.Math_pow2 (Landmark.x thumbTip - Landmark.x indexTip) +
     JS.Math_pow2 (Landmark.y thumbTip - Landmark.y indexTip) +
     JS.Math_pow2 (Landmark.z thumbTip - Landmark.z indexTip))%float.

Definition isPinching (thumbTip indexTip : Landmark.t) : bool :=
  JS.lt (dist thumbTip indexTip) PINCH_THRESHOLD.

(** The midpoints are computed in binary64 arithmetic too; their values are
    what the projection, computed in real numbers, receives. *)
Definition midpointX (thumbTip indexTip : Landmark.t) : R :=
  JS.value ((Landmark.x thumbTip + Landmark.x indexTip) / 2)%float.

Definition midpointY (thumbTip indexTip : Landmark.t) : R :=
  JS.value ((Landmark.y thumbTip + Landmark.y indexTip) / 2)%float.

Arguments dist : simpl never.
Arguments isPinching : simpl never.
Arguments midpointX : simpl never.
Arguments midpointY : simpl never.

(** What one run of the callback does to the outside, in program order. *)
Inductive Event : Type :=
| PreviewPosition (p : Vector3.t)   (* previewCubeRef.current.position.copy(p) *)
| PreviewVisible (b : bool)         (* previewCubeRef.current.visible = b *)
| PlaceBlock (p : Vector3.t).       (* placeBlock(p) is called *)

(** How a handler ends: normally, or with the [TypeError] of a property read
    on [undefined]. *)
Inductive Completion (A : Type) : Type :=
| Normal (a : A)
| ThrowTypeError.

Arguments Normal {A} a.
Arguments ThrowTypeError {A}.

Definition set_previewCubeRef (st : AppState) (g : Group.t) : AppState :=
  mkAppState (sceneRef st) (cameraRef st) (Some g)
             (placedCubesRef st) (lastPinchStateRef st) (blockCount st).

Definition set_lastPinchStateRef (st : AppState) (b : bool) : AppState :=
  mkAppState (sceneRef st) (cameraRef st) (previewCubeRef st)
             (placedCubesRef st) b (blockCount st).

(** The callback given to [hands.onResults].  [landmarks[4]] and
    [landmarks[8]] are read without a check: a hand with fewer landmarks makes
    the distance computation throw before anything is written. *)
Definition onResults (results : HandResults) (st : AppState)
    : Completion (AppState * list Event) :=
  match multiHandLandmarks results with
  | Some (landmarks :: _) =>
      match nth_error landmarks 4, nth_error landmarks 8 with
      | Some thumbTip, Some indexTip =>
          let pinching := isPinching thumbTip indexTip in
          let snappedPos :=
            getSnappedWorldPosition (cameraRef st)
              (midpointX thumbTip indexTip) (midpointY thumbTip indexTip) in
          let '(st1, log1) :=
            match previewCubeRef st with
            | Some preview =>
                (set_previewCubeRef st
                   (Group.set_visible (Group.position_copy preview snappedPos) pinching),
                 [PreviewPosition snappedPos; PreviewVisible pinching])
            | None => (st, [])
            end in
          (* Trigger on release *)
          let '(st2, log2) :=
            if lastPinchStateRef st1 && negb pinching
            then (placeBlock snappedPos st1, [PlaceBlock snappedPos])
            else (st1, []) in
          Normal (set_lastPinchStateRef st2 pinching, log1 ++ log2)
      | _, _ => ThrowTypeError
      end
  | _ =>
      let '(st1, log1) :=
        match previewCubeRef st with
        | Some preview =>
            (set_previewCubeRef st (Group.set_visible preview false),
             [PreviewVisible false])
        | None => (st, [])
        end in
      Normal (set_lastPinchStateRef st1 false, log1)
  end.

(** ** The component as a transition system *)

(** What can happen to the mounted component. *)
Inductive Action : Type :=
| MountThree (containerReady videoReady : bool) (innerWidth innerHeight : R)
| WindowResize (innerWidth innerHeight : R)
| HandsResults (results : HandResults)
| ClickClearScene.

(** One action.  An exception of the callback leaves the state as it was:
    it is raised before the first write. *)
Definition step (a : Action) (st : AppState) : AppState * list Event :=
  match a with
  | MountThree c v w h => (initThree c v w h st, [])
  | WindowResize w h => (handleResize w h st, [])
  | HandsResults results =>
      match onResults results st with
      | Normal r => r
      | ThrowTypeError => (st, [])
      end
  | ClickClearScene => (resetScene st, [])
  end.

Fixpoint run (acts : list Action) (st : AppState) : AppState :=
  match acts with
  | [] => st
  | a :: rest => run rest (fst (step a st))
  end.

(** ** Reading the state as the design's components *)

(** The two states of the placement controller. *)
Inductive ControllerState : Type := Idle | Previewing.

Definition controllerState (st : AppState) : ControllerState :=
  match previewCubeRef st with
  | Some preview => if Group.visible preview then Previewing else Idle
  | None => Idle
  end.

(** The voxel store: its positions, [count()] and occupancy. *)
Definition storePositions (st : AppState) : list Vector3.t :=
  map Group.position (placedCubesRef st).

Definition count (st : AppState) : nat := blockCount st.

Definition occupied (pos : Vector3.t) (st : AppState) : bool :=
  exists_at pos (placedCubesRef st).

(** A call [placeBlock(pos)] that took the state from [before] to [after]
    was successful when it filled a position that was free. *)
Definition placed (pos : Vector3.t) (before after : AppState) : bool :=
  negb (occupied pos before) && occupied pos after.

Definition isPlaceBlock (e : Event) : bool :=
  match e with PlaceBlock _ => true | _ => false end.

Definition isHidePreview (e : Event) : bool :=
  match e with PreviewVisible false => true | _ => false end.

(** The number of successful [placeBlock] calls an action makes from [st]. *)
Definition placements (a : Action) (st : AppState) : nat :=
  let '(st', log) := step a st in
  List.length
    (filter (fun e => match e with PlaceBlock p => placed p st st' | _ => false end) log).

(** The number of successful [placeBlock] calls since the last clear, along
    a run from [st] that starts with [n] of them. *)
Fixpoint placedSinceClear (acts : list Action) (st : AppState) (n : nat) : nat :=
  match acts with
  | [] => n
  | a :: rest =>
      placedSinceClear rest (fst (step a st))
        match a with
        | ClickClearScene => 0%nat
        | _ => (n + placements a st)%nat
        end
  end.

(** The position of the first event of a log that satisfies [f]. *)
Fixpoint firstIndex (f : Event -> bool) (log : list Event) : option nat :=
  match log with
  | [] => None
  | e :: rest => if f e then Some 0%nat else option_map S (firstIndex f rest)
  end.

(** ** The rounding rules the design names *)

(** Round to nearest, ties away from zero. *)
Definition round_half_away_from_zero (x : R) : R :=
  if Rle_dec 0 x then IZR (Zfloor (x + / 2)) else IZR (Zceil (x - / 2)).

(** Round to nearest, ties to the even integer. *)
Definition round_half_to_even (x : R) : R :=
  let n := Zfloor x in
  if Rlt_dec (x - IZR n) (/ 2) then IZR n
  else if Rlt_dec (/ 2) (x - IZR n) then IZR (n + 1)
  else if Z.even n then IZR n else IZR (n + 1).

(** ** Frames *)

(** The design's [HandFrame = None]: no landmark list, or an empty one. *)
Definition noHand (results : HandResults) : bool :=
  match multiHandLandmarks results with
  | Some (_ :: _) => false
  | _ => true
  end.

(** A tracked hand: 21 landmarks, of which only the thumb tip (4) and the
    index tip (8) matter; the others are put at the origin. *)
Definition handWith (thumbTip indexTip : Landmark.t) : HandLandmarks :=
  let o := Landmark.mk 0 0 0 in
  [o; o; o; o; thumbTip; o; o; o; indexTip; o; o; o; o; o; o; o; o; o; o; o; o].

Definition handFrame (thumbTip indexTip : Landmark.t) : HandResults :=
  mkHandResults (Some [handWith thumbTip indexTip]).

(** ** The camera of the component *)

(** [Math.tan(DEG2RAD * 0.5 * fov)], the tangent of half the field of view. *)
Definition halfFovTan (fov : R) : R :=
  JS.Math_tan (PerspectiveCamera.DEG2RAD * (5 / 10) * fov).

(** A perspective camera placed at the world origin; with the identity as
    its world matrix it looks down the negative z axis. *)
Definition cameraAtOrigin (fov aspect near far : R) : PerspectiveCamera.t :=
  PerspectiveCamera.position_set (PerspectiveCamera.new fov aspect near far) 0 0 0.

(** ** Auxiliary views of the callback, the store invariant and samples *)

(** The state and the log after a frame with a hand, given the two tips. *)
Definition afterPreview (pos : Vector3.t) (pinching : bool) (st : AppState) : AppState :=
  match previewCubeRef st with
  | Some preview =>
      set_previewCubeRef st
        (Group.set_visible (Group.position_copy preview pos) pinching)
  | None => st
  end.

Definition previewLog (pos : Vector3.t) (pinching : bool) (st : AppState) : list Event :=
  match previewCubeRef st with
  | Some _ => [PreviewPosition pos; PreviewVisible pinching]
  | None => []
  end.

Record StoreInvariant (st : AppState) : Prop := {
  inv_nodup : NoDup (storePositions st);
  inv_count : blockCount st = List.length (placedCubesRef st);
  inv_unmounted : sceneRef st = None -> placedCubesRef st = []
}.

(** What an action does to the store: nothing, one cube more at a free
    position, or everything removed. *)
Inductive StoreChange (a : Action) (st st' : AppState) (log : list Event) : Prop :=
| Unchanged :
    placedCubesRef st' = placedCubesRef st ->
    blockCount st' = blockCount st ->
    (sceneRef st' = None -> sceneRef st = None) ->
    a <> ClickClearScene ->
    placements a st = 0%nat ->
    StoreChange a st st' log
| Placed (pos : Vector3.t) (results : HandResults) :
    a = HandsResults results ->
    sceneRef st <> None -> sceneRef st' <> None ->
    occupied pos st = false ->
    placedCubesRef st' = placedCubesRef st ++ [Group.mk pos true] ->
    blockCount st' = (blockCount st + 1)%nat ->
    In (PlaceBlock pos) log ->
    placements a st = 1%nat ->
    StoreChange a st st' log
| Cleared :
    a = ClickClearScene ->
    sceneRef st <> None -> sceneRef st' <> None ->
    placedCubesRef st' = [] ->
    blockCount st' = 0%nat ->
    StoreChange a st st' log
| ClearedUnmounted :
    a = ClickClearScene ->
    sceneRef st = None ->
    st' = st ->
    StoreChange a st st' log.

Definition pinchedAtCenter : HandResults :=
  handFrame (Landmark.mk (1 / 2) (1 / 2) 0) (Landmark.mk (1 / 2) (1 / 2) 0).

Definition openAtCenter : HandResults :=
  handFrame (Landmark.mk 0 (1 / 2) 0) (Landmark.mk 1 (1 / 2) 0).

Definition mountedState : AppState := initThree true true 16 9 initialState.

Definition pinchingState : AppState :=
  fst (step (HandsResults pinchedAtCenter) mountedState).

Definition unmountedPinchingState : AppState :=
  fst (step (HandsResults pinchedAtCenter) initialState).

(** The reading of C8 as stated: in the log of a frame, the call of
    [placeBlock] comes before the hiding of the preview. *)
Definition placeBeforeHide (log : list Event) : Prop :=
  exists m n : nat,
    firstIndex isPlaceBlock log = Some m /\
    firstIndex isHidePreview log = Some n /\
    (m < n)%nat.

(** ** Sequences of frames *)

(** What the callback reads off a result: no hand, a hand too short to hold
    the two tips, or a hand with its pinch test. *)
Inductive FrameSignal : Type :=
| NoHandSignal
| MalformedSignal
| HandSignal (pinching : bool).

Definition frameSignal (results : HandResults) : FrameSignal :=
  match multiHandLandmarks results with
  | Some (landmarks :: _) =>
      match nth_error landmarks 4, nth_error landmarks 8 with
      | Some thumbTip, Some indexTip => HandSignal (isPinching thumbTip indexTip)
      | _, _ => MalformedSignal
      end
  | _ => NoHandSignal
  end.

(** The falling edges of a sequence of signals that starts after a frame
    whose pinch state was [last]: a frame without a hand forgets the pinch,
    a malformed one is skipped. *)
Fixpoint releases (last : bool) (signals : list FrameSignal) : nat :=
  match signals with
  | [] => 0%nat
  | NoHandSignal :: rest => releases false rest
  | MalformedSignal :: rest => releases last rest
  | HandSignal pinching :: rest =>
      ((if last && negb pinching then 1 else 0) + releases pinching rest)%nat
  end.

(** The events of a run, in order. *)
Fixpoint runLog (acts : list Action) (st : AppState) : list Event :=
  match acts with
  | [] => []
  | a :: rest => snd (step a st) ++ runLog rest (fst (step a st))
  end.

(** ** The build box *)







(** ** Runs in which the scene is set up once *)

Definition isMountThree (a : Action) : bool :=
  match a with MountThree _ _ _ _ => true | _ => false end.

(** No action of the list runs the initialisation effect again. *)
Definition noRemount (acts : list Action) : bool :=
  forallb (fun a => negb (isMountThree a)) acts.

(** The scene shows the cubes of the store, in the order of their placement. *)
Definition sceneShowsStore (st : AppState) : Prop :=
  sceneRef st = Some (Scene.mk (placedCubesRef st)).

(** The preview cube exists and is visible exactly when a pinch is stored. *)
Definition previewFollowsPinch (st : AppState) : Prop :=
  exists preview : Group.t,
    previewCubeRef st = Some preview /\
    Group.visible preview = lastPinchStateRef st.

(** No action of the list is the clear button. *)
Definition noClear (acts : list Action) : bool :=
  forallb (fun a => match a with ClickClearScene => false | _ => true end) acts.

(** * Properties *)

(** ** Binary64 arithmetic *)

(** The comparison of binary64 numbers is antisymmetric. *)
Lemma compare_cont_swap (m n : positive) :
  Pos.compare_cont Eq n m = CompOpp (Pos.compare_cont Eq m n).
Proof. rewrite (Pos.compare_cont_antisym m n Eq). reflexivity. Qed.

Lemma SFcompare_antisym (a b : spec_float) :
  SFcompare b a = option_map CompOpp (SFcompare a b).
Proof.
  destruct a as [sa | sa | | sa ma ea], b as [sb | sb | | sb mb eb];
    try destruct sa; try destruct sb; try reflexivity; cbn;
    rewrite (Z.compare_antisym ea eb); destruct (ea ?= eb)%Z; cbn; try reflexivity;
    rewrite (compare_cont_swap ma mb);
    destruct (Pos.compare_cont Eq ma mb); reflexivity.
Qed.

Lemma leb_true_ltb_false (a b : float) :
  (a <=? b)%float = true -> (b <? a)%float = false.
Proof.
  rewrite leb_spec, ltb_spec. unfold SFleb, SFltb.
  rewrite (SFcompare_antisym (Prim2SF a) (Prim2SF b)).
  destruct (SFcompare (Prim2SF a) (Prim2SF b)) as [[ | | ] | ]; cbn;
    intro H; try reflexivity; discriminate.
Qed.

(** Addition commutes. *)
Lemma SFadd_comm (p e : Z) (a b : spec_float) : SFadd p e a b = SFadd p e b a.
Proof.
  destruct a as [sa | sa | | sa ma ea], b as [sb | sb | | sb mb eb];
    try (destruct sa; destruct sb; reflexivity);
    try (destruct sa; reflexivity); try (destruct sb; reflexivity);
    try reflexivity.
  unfold SFadd.
  assert (M : IntDef.Z.min eb ea = IntDef.Z.min ea eb) by apply Z.min_comm.
  rewrite M. apply (f_equal (fun m => binary_normalize p e m (IntDef.Z.min ea eb) false)).
  apply Z.add_comm.
Qed.

Lemma float_add_comm (a b : float) : (a + b)%float = (b + a)%float.
Proof. apply Prim2SF_inj. rewrite !add_spec. apply SFadd_comm. Qed.

(** Rounding acts on the magnitude: the sign only labels the result. *)
Lemma binary_round_aux_sign (p e : Z) (m ex : Z) (l : location) :
  binary_round_aux p e true m ex l = SFopp (binary_round_aux p e false m ex l).
Proof.
  unfold binary_round_aux.
  destruct (shr_fexp p e m ex l) as [mrs' e'].
  destruct (shr_fexp p e (round_nearest_even (shr_m mrs') (loc_of_shr_record mrs')) e' loc_Exact)
    as [mrs'' e''].
  destruct (shr_m mrs''); try reflexivity.
  destruct (IntDef.Z.leb e'' (IntDef.Z.sub e p)); reflexivity.
Qed.

Lemma binary_round_sign (p e : Z) (m : positive) (ex : Z) :
  binary_round p e true m ex = SFopp (binary_round p e false m ex).
Proof.
  unfold binary_round.
  destruct (shl_align m ex (fexp p e (IntDef.Z.add (Zpos (digits2_pos m)) ex))) as [mz ez].
  apply binary_round_aux_sign.
Qed.

Lemma binary_round_aux_false (p e : Z) (m ex : Z) (l : location) :
  match binary_round_aux p e false m ex l with
  | S754_zero s | S754_infinity s | S754_finite s _ _ => s = false
  | S754_nan => True
  end.
Proof.
  unfold binary_round_aux.
  destruct (shr_fexp p e m ex l) as [mrs' e'].
  destruct (shr_fexp p e (round_nearest_even (shr_m mrs') (loc_of_shr_record mrs')) e' loc_Exact)
    as [mrs'' e''].
  destruct (shr_m mrs''); try exact I; try reflexivity.
  destruct (IntDef.Z.leb e'' (IntDef.Z.sub e p)); reflexivity.
Qed.

(** A square does not see the sign, and swapping the operands of a
    subtraction only changes the sign (or gives [+0] both ways). *)
Lemma SFmul_opp (p e : Z) (u : spec_float) :
  SFmul p e (SFopp u) (SFopp u) = SFmul p e u u.
Proof. destruct u as [[ | ] | [ | ] | | [ | ] m ex]; reflexivity. Qed.

Lemma binary_normalize_opp (p e : Z) (m ex : Z) :
  let u := binary_normalize p e m ex false in
  let v := binary_normalize p e (- m) ex false in
  SFmul p e v v = SFmul p e u u.
Proof.
  destruct m as [ | m | m]; cbn [Z.opp binary_normalize]; cbv zeta.
  - reflexivity.
  - rewrite binary_round_sign. apply SFmul_opp.
  - rewrite binary_round_sign. symmetry. apply SFmul_opp.
Qed.

Lemma SFsub_swap_square (p e : Z) (x y : spec_float) :
  SFmul p e (SFsub p e y x) (SFsub p e y x) = SFmul p e (SFsub p e x y) (SFsub p e x y).
Proof.
  destruct x as [sx | sx | | sx mx ex], y as [sy | sy | | sy my ey];
    try (destruct sx; destruct sy; reflexivity);
    try (destruct sx; reflexivity); try (destruct sy; reflexivity);
    try reflexivity.
  unfold SFsub.
  assert (M : IntDef.Z.min ey ex = IntDef.Z.min ex ey) by apply Z.min_comm.
  rewrite M.
  set (ez := IntDef.Z.min ex ey).
  set (a := cond_Zopp sx (Zpos (fst (shl_align mx ex ez)))).
  set (b := cond_Zopp sy (Zpos (fst (shl_align my ey ez)))).
  assert (O : IntDef.Z.sub b a = (- IntDef.Z.sub a b)%Z) by (change (b - a = - (a - b))%Z; lia).
  rewrite O. apply binary_normalize_opp.
Qed.

Lemma pow2_sub_swap (a b : float) :
  JS.Math_pow2 (b - a)%float = JS.Math_pow2 (a - b)%float.
Proof.
  unfold JS.Math_pow2.
  apply Prim2SF_inj. rewrite !mul_spec, !sub_spec. apply SFsub_swap_square.
Qed.

(** A finite number minus itself is [+0]. *)
Lemma sub_diag_finite (a : float) :
  JS.isFinite a = true -> Prim2SF (a - a)%float = S754_zero false.
Proof.
  unfold JS.isFinite. rewrite sub_spec.
  destruct (Prim2SF a) as [[ | ] | s | | s m e]; try discriminate; try reflexivity.
  intros _. unfold SF64sub, SFsub.
  set (z := cond_Zopp s (Zpos (fst (shl_align m e (IntDef.Z.min e e))))).
  change (IntDef.Z.sub z z) with (z - z)%Z. rewrite Z.sub_diag. reflexivity.
Qed.

Lemma pow2_sub_diag_finite (a : float) :
  JS.isFinite a = true -> Prim2SF (JS.Math_pow2 (a - a)%float) = S754_zero false.
Proof.
  intro H. unfold JS.Math_pow2. rewrite mul_spec, (sub_diag_finite a H). reflexivity.
Qed.

(** A square root is never negative. *)
Lemma SFsqrt_sign (p e : Z) (x : spec_float) :
  match SFsqrt p e x with
  | S754_infinity s | S754_finite s _ _ => s = false
  | _ => True
  end.
Proof.
  destruct x as [s | [ | ] | | [ | ] m ex]; try exact I; try reflexivity.
  unfold SFsqrt.
  destruct (SFsqrt_core_binary p e (Zpos m) ex) as [[mz ez] lz].
  pose proof (binary_round_aux_false p e mz ez lz) as H.
  destruct (binary_round_aux p e false mz ez lz); try exact I; exact H.
Qed.

(** Canonical mantissas and exponents. *)
Lemma digits2_pos_size (m : positive) : digits2_pos m = Pos.size m.
Proof. induction m as [m IH | m IH | ]; cbn; try rewrite IH; reflexivity. Qed.

Lemma digits2_pos_bounds (m : positive) :
  (2 ^ (Zpos (digits2_pos m) - 1) <= Zpos m < 2 ^ Zpos (digits2_pos m))%Z.
Proof.
  rewrite digits2_pos_size.
  pose proof (Pos.size_gt m) as G. pose proof (Pos.size_le m) as L.
  split.
  - assert (E : (2 ^ Zpos (Pos.size m) = 2 * 2 ^ (Zpos (Pos.size m) - 1))%Z).
    { rewrite <- Z.pow_succ_r by lia. f_equal. lia. }
    assert (L' : (2 ^ Zpos (Pos.size m) <= 2 * Zpos m)%Z).
    { change (2 ^ Zpos (Pos.size m))%Z with (Z.pow_pos 2 (Pos.size m)).
      rewrite <- Pos2Z.inj_pow_pos. change (2 * Zpos m)%Z with (Zpos (m~0)).
      apply Pos2Z.pos_le_pos. exact L. }
    lia.
  - change (2 ^ Zpos (Pos.size m))%Z with (Z.pow_pos 2 (Pos.size m)).
    rewrite <- Pos2Z.inj_pow_pos. apply Pos2Z.pos_lt_pos. exact G.
Qed.

Lemma bounded_digits (m : positive) (e : Z) :
  SpecFloat.bounded prec emax m e = true ->
  (- 1074 <= e)%Z /\ (Zpos (digits2_pos m) <= 53)%Z /\
  ((- 1074 < e)%Z -> Zpos (digits2_pos m) = 53%Z).
Proof.
  unfold SpecFloat.bounded, canonical_mantissa, fexp, emin. intro H.
  apply andb_prop in H. destruct H as [H _].
  change (IntDef.Z.eqb ?a ?b) with (Z.eqb a b) in H.
  apply Z.eqb_eq in H.
  change (IntDef.Z.max ?a ?b) with (Z.max a b) in H.
  change (IntDef.Z.sub ?a ?b) with (Z.sub a b) in H.
  change (IntDef.Z.add ?a ?b) with (Z.add a b) in H.
  change prec with 53%Z in H. change emax with 1024%Z in H.
  lia.
Qed.

Lemma powerRZ_2_pos (e : Z) : 0 < powerRZ 2 e.
Proof. apply powerRZ_lt. lra. Qed.

Lemma powerRZ_2_IZR (k : Z) : (0 <= k)%Z -> powerRZ 2 k = IZR (2 ^ k).
Proof.
  intro H. destruct k as [ | p | p]; [reflexivity | | lia].
  cbn [powerRZ]. rewrite pow_IZR. rewrite positive_nat_Z. reflexivity.
Qed.

(** Two positive finite numbers in canonical form are ordered by their
    exponents first and by their mantissas then: this is the order of the
    real numbers they stand for. *)
Lemma finite_lt_exponent (m1 m2 : positive) (e1 e2 : Z) :
  SpecFloat.bounded prec emax m1 e1 = true -> SpecFloat.bounded prec emax m2 e2 = true ->
  (e1 < e2)%Z ->
  IZR (Zpos m1) * powerRZ 2 e1 < IZR (Zpos m2) * powerRZ 2 e2.
Proof.
  intros B1 B2 He.
  destruct (bounded_digits m1 e1 B1) as (L1 & D1 & _).
  destruct (bounded_digits m2 e2 B2) as (_ & _ & N2).
  pose proof (digits2_pos_bounds m1) as [_ U1].
  pose proof (digits2_pos_bounds m2) as [L2 _].
  rewrite (N2 ltac:(lia)) in L2.
  assert (U1' : (Zpos m1 < 2 ^ 53)%Z).
  { apply (Z.lt_le_trans _ _ _ U1). apply Z.pow_le_mono_r; lia. }
  replace e2 with (e1 + (e2 - e1))%Z by lia.
  rewrite powerRZ_add by lra.
  rewrite (powerRZ_2_IZR (e2 - e1)) by lia.
  pose proof (powerRZ_2_pos e1) as P.
  rewrite (Rmult_comm (powerRZ 2 e1)), <- Rmult_assoc.
  apply Rmult_lt_compat_r; [exact P | ].
  rewrite <- mult_IZR. apply IZR_lt.
  assert (K : (2 ^ 1 <= 2 ^ (e2 - e1))%Z) by (apply Z.pow_le_mono_r; lia).
  change (2 ^ (53 - 1))%Z with 4503599627370496%Z in L2.
  change (2 ^ 53)%Z with 9007199254740992%Z in U1'.
  change (2 ^ 1)%Z with 2%Z in K.
  nia.
Qed.

Lemma SFcompare_finite_value (m1 m2 : positive) (e1 e2 : Z) :
  SpecFloat.bounded prec emax m1 e1 = true -> SpecFloat.bounded prec emax m2 e2 = true ->
  let v1 := IZR (Zpos m1) * powerRZ 2 e1 in
  let v2 := IZR (Zpos m2) * powerRZ 2 e2 in
  match SFcompare (S754_finite false m1 e1) (S754_finite false m2 e2) with
  | Some Lt => v1 < v2
  | Some Eq => v1 = v2
  | Some Gt => v2 < v1
  | None => False
  end.
Proof.
  intros B1 B2 v1 v2. unfold v1, v2. cbn [SFcompare].
  change (IntDef.Z.compare e1 e2) with (Z.compare e1 e2).
  destruct (Z.compare_spec e1 e2) as [E | L | G].
  - subst e2. change (Pos.compare_cont Eq m1 m2) with (Pos.compare m1 m2).
    pose proof (powerRZ_2_pos e1) as P.
    destruct (Pos.compare_spec m1 m2) as [E | L | G].
    + subst m2. reflexivity.
    + apply Rmult_lt_compat_r; [exact P | ]. apply IZR_lt. exact L.
    + apply Rmult_lt_compat_r; [exact P | ]. apply IZR_lt. exact G.
  - apply finite_lt_exponent; assumption.
  - apply finite_lt_exponent; assumption || lia.
Qed.

(** Below a positive finite bound: a square root is strictly below it, as
    binary64 numbers, exactly when it is finite and its value is below the
    value of the bound. *)
Lemma sqrt_ltb_value (x b : float) (mb : positive) (eb : Z) :
  Prim2SF b = S754_finite false mb eb ->
  (PrimFloat.sqrt x <? b)%float = true <->
  JS.isFinite (PrimFloat.sqrt x) = true /\ JS.value (PrimFloat.sqrt x) < JS.value b.
Proof.
  intro Hb. rewrite ltb_spec. unfold JS.isFinite, JS.value. rewrite Hb.
  pose proof (Prim2SF_valid b) as Vb. rewrite Hb in Vb. cbn [valid_binary] in Vb.
  pose proof (Prim2SF_valid (PrimFloat.sqrt x)) as Vd.
  pose proof (SFsqrt_sign prec emax (Prim2SF x)) as S.
  rewrite <- sqrt_spec in S.
  assert (Pb : 0 < IZR (Zpos mb) * powerRZ 2 eb).
  { apply Rmult_lt_0_compat; [apply IZR_lt; lia | apply powerRZ_2_pos]. }
  destruct (Prim2SF (PrimFloat.sqrt x)) as [s | s | | s m e].
  - cbn. split; [intros _; split; [reflexivity | exact Pb] | reflexivity].
  - subst s. cbn. split; [discriminate | intros [H _]; discriminate].
  - cbn. split; [discriminate | intros [H _]; discriminate].
  - subst s. cbn [valid_binary] in Vd.
    pose proof (SFcompare_finite_value m mb e eb Vd Vb) as C. cbv zeta in C.
    unfold SFltb.
    destruct (SFcompare (S754_finite false m e) (S754_finite false mb eb)) as [[ | | ] | ].
    + split; [discriminate | intros [_ H]; lra].
    + split; [intros _; split; [reflexivity | exact C] | reflexivity].
    + split; [discriminate | intros [_ H]; lra].
    + destruct C.
Qed.

(** The value of the sample coordinates. *)
Lemma value_half : JS.value ((1 / 2 + 1 / 2) / 2)%float = 1 / 2.
Proof.
  unfold JS.value.
  replace (Prim2SF ((1 / 2 + 1 / 2) / 2)%float)
    with (S754_finite false 4503599627370496 (- 53)) by (vm_compute; reflexivity).
  cbn [powerRZ]. change (Pos.to_nat 53) with 53%nat. field.
Qed.

Lemma value_half_of_0_1 : JS.value ((0 + 1) / 2)%float = 1 / 2.
Proof.
  unfold JS.value.
  replace (Prim2SF ((0 + 1) / 2)%float)
    with (S754_finite false 4503599627370496 (- 53)) by (vm_compute; reflexivity).
  cbn [powerRZ]. change (Pos.to_nat 53) with 53%nat. field.
Qed.

(** ** Comparisons and rounding *)

Lemma strict_eq_true_iff (a b : R) : JS.strict_eq a b = true <-> a = b.
Proof.
  unfold JS.strict_eq. destruct (Req_EM_T a b) as [H | H]; split; intro K;
    try reflexivity; try assumption; try discriminate; contradiction.
Qed.

Lemma strict_eq_false_iff (a b : R) : JS.strict_eq a b = false <-> a <> b.
Proof.
  unfold JS.strict_eq. destruct (Req_EM_T a b) as [H | H]; split; intro K;
    try reflexivity; try assumption; try discriminate; contradiction.
Qed.

Lemma equals_true_iff (v w : Vector3.t) : Vector3.equals v w = true <-> v = w.
Proof.
  unfold Vector3.equals. rewrite !andb_true_iff, !strict_eq_true_iff.
  destruct v as [a b c], w as [a' b' c']; simpl. split.
  - intros [[-> ->] ->]. reflexivity.
  - intro E. inversion E. auto.
Qed.

(** [Math.round] returns the integer [n] with [n - 1/2 <= x < n + 1/2]. *)
Lemma Math_round_bounds (x : R) :
  JS.Math_round x - / 2 <= x < JS.Math_round x + / 2.
Proof.
  unfold JS.Math_round. pose proof (Zfloor_bound (x + / 2)) as B. lra.
Qed.

Lemma Math_round_eq (n : Z) (x : R) :
  IZR n - / 2 <= x < IZR n + / 2 -> JS.Math_round x = IZR n.
Proof.
  intro H. unfold JS.Math_round. f_equal. apply Zfloor_eq. lra.
Qed.

Lemma Math_round_IZR (n : Z) : JS.Math_round (IZR n) = IZR n.
Proof. apply Math_round_eq. lra. Qed.

Lemma snap_eq (n : Z) (c : R) : IZR n - / 2 <= c < IZR n + / 2 -> snap c = IZR n.
Proof.
  intro H. unfold snap, GRID_SIZE. rewrite (Math_round_eq n); [lra | ].
  replace (c / 1) with c by field. exact H.
Qed.

(** ** The camera *)

Lemma Vector3_ext (a b c a' b' c' : R) :
  a = a' -> b = b' -> c = c' -> Vector3.mk a b c = Vector3.mk a' b' c'.
Proof. intros -> -> ->. reflexivity. Qed.

Lemma Matrix4_ext (a0 a1 a2 a3 a4 a5 a6 a7 a8 a9 a10 a11 a12 a13 a14 a15
                   b0 b1 b2 b3 b4 b5 b6 b7 b8 b9 b10 b11 b12 b13 b14 b15 : R) :
  a0 = b0 -> a1 = b1 -> a2 = b2 -> a3 = b3 ->
  a4 = b4 -> a5 = b5 -> a6 = b6 -> a7 = b7 ->
  a8 = b8 -> a9 = b9 -> a10 = b10 -> a11 = b11 ->
  a12 = b12 -> a13 = b13 -> a14 = b14 -> a15 = b15 ->
  Matrix4.mk a0 a1 a2 a3 a4 a5 a6 a7 a8 a9 a10 a11 a12 a13 a14 a15 =
  Matrix4.mk b0 b1 b2 b3 b4 b5 b6 b7 b8 b9 b10 b11 b12 b13 b14 b15.
Proof. intros. subst. reflexivity. Qed.

Ltac matrix_fields :=
  cbn [Matrix4.e0 Matrix4.e1 Matrix4.e2 Matrix4.e3 Matrix4.e4 Matrix4.e5
       Matrix4.e6 Matrix4.e7 Matrix4.e8 Matrix4.e9 Matrix4.e10 Matrix4.e11
       Matrix4.e12 Matrix4.e13 Matrix4.e14 Matrix4.e15].

(** The adjugate formula of [invert] is an inverse. *)
Lemma invert_is_inverse (m : Matrix4.t) :
  Matrix4.determinant m <> 0 ->
  Matrix4.multiplyMatrices m (Matrix4.invert m) = Matrix4.identity.
Proof.
  intro D. destruct m.
  unfold Matrix4.invert, Matrix4.determinant in *.
  matrix_fields.
  cbn [Matrix4.e0 Matrix4.e1 Matrix4.e2 Matrix4.e3 Matrix4.e4 Matrix4.e5
       Matrix4.e6 Matrix4.e7 Matrix4.e8 Matrix4.e9 Matrix4.e10 Matrix4.e11
       Matrix4.e12 Matrix4.e13 Matrix4.e14 Matrix4.e15] in D.
  cbv zeta in *.
  match type of D with ?d <> 0 =>
    assert (Hdi : d * (1 / d) = 1) by (field; exact D);
    set (det := d) in *
  end.
  unfold JS.strict_eq. destruct (Req_EM_T det 0) as [E | _]; [contradiction | ].
  set (detInv := 1 / det) in *. clearbody detInv.
  unfold Matrix4.multiplyMatrices, Matrix4.identity. matrix_fields. cbv zeta.
  apply Matrix4_ext; try ring; rewrite <- Hdi; unfold det; ring.
Qed.

(** The inverse of a frustum matrix, entry by entry. *)
Lemma invert_frustum (x y a b c d : R) :
  x <> 0 -> y <> 0 -> d <> 0 ->
  Matrix4.invert (Matrix4.mk x 0 0 0  0 y 0 0  a b c (- 1)  0 0 d 0) =
  Matrix4.mk (1 / x) 0 0 0  0 (1 / y) 0 0  0 0 0 (1 / d)  (a / x) (b / y) (- 1) (c / d).
Proof.
  intros Hx Hy Hd. unfold Matrix4.invert. matrix_fields. cbv zeta.
  match goal with |- context [JS.strict_eq ?det 0] =>
    assert (Hdet : det = x * y * d) by ring; rewrite Hdet end.
  assert (N : x * y * d <> 0) by (repeat apply Rmult_integral_contrapositive_currified; assumption).
  apply strict_eq_false_iff in N. rewrite N.
  apply Matrix4_ext; field; auto.
Qed.

Ltac side_conditions H1 H2 :=
  repeat split; try assumption; try lra;
  let E := fresh "E" in intro E; first [apply H1; lra | apply H2; lra].

Lemma projectionMatrixInverse_new (fov aspect near far : R) :
  halfFovTan fov <> 0 -> aspect <> 0 -> near <> 0 -> far <> 0 -> far <> near ->
  PerspectiveCamera.projectionMatrixInverse
    (PerspectiveCamera.new fov aspect near far) =
  Matrix4.mk (aspect * halfFovTan fov) 0 0 0
             0 (halfFovTan fov) 0 0
             0 0 0 (- (far - near) / (2 * far * near))
             0 0 (- 1) ((far + near) / (2 * far * near)).
Proof.
  intros HT Ha Hn Hf Hfn. unfold halfFovTan in *.
  set (T := JS.Math_tan (PerspectiveCamera.DEG2RAD * (5 / 10) * fov)) in *.
  unfold PerspectiveCamera.new, PerspectiveCamera.updateProjectionMatrix.
  cbn [PerspectiveCamera.fov PerspectiveCamera.aspect PerspectiveCamera.near
       PerspectiveCamera.far PerspectiveCamera.projectionMatrixInverse].
  fold T. clearbody T. cbv zeta. unfold Matrix4.makePerspective. cbv zeta.
  assert (H1 : aspect * near * T <> 0)
    by (repeat apply Rmult_integral_contrapositive_currified; assumption).
  assert (H2 : near * T <> 0)
    by (repeat apply Rmult_integral_contrapositive_currified; assumption).
  assert (H3 : far - near <> 0) by lra.
  assert (H4 : far * near <> 0)
    by (repeat apply Rmult_integral_contrapositive_currified; assumption).
  assert (H5 : aspect * T <> 0)
    by (repeat apply Rmult_integral_contrapositive_currified; assumption).
  rewrite invert_frustum.
  - apply Matrix4_ext; try reflexivity; field; side_conditions H1 H2.
  - match goal with |- ?e <> 0 =>
      replace e with (/ (aspect * T)) by (field; side_conditions H1 H2) end.
    apply Rinv_neq_0_compat. exact H5.
  - match goal with |- ?e <> 0 =>
      replace e with (/ T) by (field; side_conditions H1 H2) end.
    apply Rinv_neq_0_compat. exact HT.
  - match goal with |- ?e <> 0 =>
      replace e with (- (2 * (far * near) * / (far - near))) by (field; lra) end.
    apply Ropp_neq_0_compat.
    apply Rmult_integral_contrapositive_currified.
    + intro E. apply H4. lra.
    + apply Rinv_neq_0_compat. exact H3.
Qed.

Lemma unproject_center (fov aspect near far : R) :
  halfFovTan fov <> 0 -> aspect <> 0 -> 0 < near -> near < far ->
  unproject (Vector3.mk (ndcX (1 / 2)) (ndcY (1 / 2)) (5 / 10))
            (cameraAtOrigin fov aspect near far) =
  Vector3.mk 0 0 (- (4 * far * near / (far + 3 * near))).
Proof.
  intros HT Ha Hn Hf. unfold unproject, cameraAtOrigin, PerspectiveCamera.position_set.
  cbn [PerspectiveCamera.projectionMatrixInverse PerspectiveCamera.matrixWorld].
  rewrite projectionMatrixInverse_new by (auto; lra).
  unfold PerspectiveCamera.new, PerspectiveCamera.updateProjectionMatrix.
  cbn [PerspectiveCamera.matrixWorld]. 
  unfold applyMatrix4, Matrix4.identity, ndcX, ndcY.
  matrix_fields. cbn [Vector3.x Vector3.y Vector3.z]. cbv zeta.
  apply Vector3_ext; field; repeat split; try lra.
Qed.

Lemma length_axis (c : R) : 0 <= c -> Vector3.length (Vector3.mk 0 0 (- c)) = c.
Proof.
  intro H. unfold Vector3.length, JS.Math_sqrt. cbn [Vector3.x Vector3.y Vector3.z].
  replace (0 * 0 + 0 * 0 + - c * - c) with (c * c) by ring.
  apply sqrt_square. exact H.
Qed.

Lemma normalize_axis (c : R) :
  0 < c -> Vector3.normalize (Vector3.mk 0 0 (- c)) = Vector3.mk 0 0 (- 1).
Proof.
  intro H. unfold Vector3.normalize. rewrite length_axis by lra.
  unfold JS.or_else.
  assert (N : JS.strict_eq c 0 = false) by (apply strict_eq_false_iff; lra).
  rewrite N. unfold Vector3.divideScalar, Vector3.multiplyScalar.
  cbn [Vector3.x Vector3.y Vector3.z]. apply Vector3_ext; field; lra.
Qed.

Lemma targetPos_center (fov aspect near far : R) :
  halfFovTan fov <> 0 -> aspect <> 0 -> 0 < near -> near < far ->
  targetPos (cameraAtOrigin fov aspect near far) (1 / 2) (1 / 2) =
  Vector3.mk 0 0 (- 6).
Proof.
  intros HT Ha Hn Hf. unfold targetPos. cbv zeta.
  rewrite unproject_center by assumption.
  unfold cameraAtOrigin, PerspectiveCamera.position_set.
  cbn [PerspectiveCamera.position].
  unfold Vector3.sub. cbn [Vector3.x Vector3.y Vector3.z].
  replace (0 - 0) with 0 by ring.
  replace (- (4 * far * near / (far + 3 * near)) - 0)
    with (- (4 * far * near / (far + 3 * near))) by ring.
  rewrite normalize_axis.
  - unfold Vector3.add, Vector3.clone, Vector3.multiplyScalar, BUILD_DISTANCE.
    cbn [Vector3.x Vector3.y Vector3.z]. apply Vector3_ext; ring.
  - apply Rdiv_lt_0_compat; [ | lra].
    apply Rmult_lt_0_compat; lra.
Qed.

Lemma snap_IZR (n : Z) : snap (IZR n) = IZR n.
Proof. apply snap_eq. lra. Qed.

Lemma halfFovTan_pos (fov : R) : 0 < fov < 180 -> 0 < halfFovTan fov.
Proof.
  intro H. unfold halfFovTan, JS.Math_tan, PerspectiveCamera.DEG2RAD, JS.Math_PI.
  pose proof PI_RGT_0 as P. apply tan_gt_0.
  - apply Rmult_lt_0_compat; [ | lra]. lra.
  - replace (PI / 180 * (5 / 10) * fov) with (PI / 2 * (fov / 180)) by field.
    rewrite <- (Rmult_1_r (PI / 2)) at 2.
    apply Rmult_lt_compat_l; lra.
Qed.

(** C5.  For a perspective camera at the world origin looking down -Z, the
    screen point (0.5, 0.5) has device coordinates (0, 0); the point
    [BUILD_DISTANCE = 6] along the unprojected ray is (0, 0, -6), at distance
    exactly [BUILD_DISTANCE] from the camera, and with [GRID_SIZE = 1] it
    snaps to the lattice position (0, 0, -6).  The device coordinates are
    [2x - 1] and [1 - 2y] for every screen point.  The camera the component
    creates is such a camera, with a field of view of 70 degrees. *)
Theorem center_projects_to_0_0_minus_6 (fov aspect near far : R) :
  0 < fov < 180 -> aspect <> 0 -> 0 < near < far ->
  let camera := cameraAtOrigin fov aspect near far in
  BUILD_DISTANCE = 6 /\ GRID_SIZE = 1 /\
  (forall (w h : R) (st : AppState),
      cameraRef (initThree true true w h st) =
      Some (cameraAtOrigin 70 (w / h) (1 / 100) 100)) /\
  PerspectiveCamera.position camera = Vector3.mk 0 0 0 /\
  PerspectiveCamera.matrixWorld camera = Matrix4.identity /\
  (forall x y : R, ndcX x = 2 * x - 1 /\ ndcY y = 1 - 2 * y) /\
  ndcX (1 / 2) = 0 /\ ndcY (1 / 2) = 0 /\
  targetPos camera (1 / 2) (1 / 2) = Vector3.mk 0 0 (- 6) /\
  Vector3.length
    (Vector3.sub (targetPos camera (1 / 2) (1 / 2))
                 (PerspectiveCamera.position camera)) = BUILD_DISTANCE /\
  getSnappedWorldPosition (Some camera) (1 / 2) (1 / 2) = Vector3.mk 0 0 (- 6).
Proof.
  intros Hfov Ha Hnf camera.
  assert (HT : halfFovTan fov <> 0).
  { pose proof (halfFovTan_pos fov Hfov). lra. }
  assert (P : targetPos camera (1 / 2) (1 / 2) = Vector3.mk 0 0 (- 6)).
  { apply targetPos_center; tauto || lra. }
  split; [reflexivity | ]. split; [reflexivity | ].
  split; [intros w h st; reflexivity | ].
  split; [reflexivity | ]. split; [reflexivity | ].
  split; [intros x y; unfold ndcX, ndcY; split; ring | ].
  split; [unfold ndcX; field | ]. split; [unfold ndcY; field | ].
  split; [exact P | ]. split.
  - rewrite P. unfold camera, cameraAtOrigin, PerspectiveCamera.position_set.
    cbn [PerspectiveCamera.position]. unfold Vector3.sub.
    cbn [Vector3.x Vector3.y Vector3.z].
    replace (0 - 0) with 0 by ring. replace (- 6 - 0) with (- 6) by ring.
    unfold Vector3.length, JS.Math_sqrt, BUILD_DISTANCE.
    cbn [Vector3.x Vector3.y Vector3.z].
    replace (0 * 0 + 0 * 0 + - 6 * - 6) with (6 * 6) by ring.
    apply sqrt_square. lra.
  - unfold getSnappedWorldPosition. cbv zeta. rewrite P.
    cbn [Vector3.x Vector3.y Vector3.z].
    apply Vector3_ext.
    + apply (snap_IZR 0).
    + apply (snap_IZR 0).
    + apply (snap_IZR (- 6)).
Qed.

Lemma center_projects_to_0_0_minus_6_witness :
  (0 < 70 < 180 /\ 16 / 9 <> 0 /\ 0 < 1 / 100 < 100) /\
  getSnappedWorldPosition (Some (cameraAtOrigin 70 (16 / 9) (1 / 100) 100))
                          (1 / 2) (1 / 2) = Vector3.mk 0 0 (- 6).
Proof.
  assert (H1 : 0 < 70 < 180) by lra.
  assert (H2 : 16 / 9 <> 0) by lra.
  assert (H3 : 0 < 1 / 100 < 100) by lra.
  split; [ repeat split; lra | ].
  apply (center_projects_to_0_0_minus_6 70 (16 / 9) (1 / 100) 100 H1 H2 H3).
Defined.

Lemma snap_minus_five_halves : snap (- 5 / 2) = - 2.
Proof. apply (snap_eq (- 2)). lra. Qed.

Lemma snap_one_half : snap (1 / 2) = 1.
Proof. apply (snap_eq 1). lra. Qed.

Lemma round_half_away_minus_five_halves :
  round_half_away_from_zero (- 5 / 2 / GRID_SIZE) * GRID_SIZE = - 3.
Proof.
  unfold round_half_away_from_zero, GRID_SIZE.
  destruct (Rle_dec 0 (- 5 / 2 / 1)) as [H | H]; [lra | ].
  rewrite (Zceil_eq (- 3)); lra.
Qed.

Lemma round_half_even_one_half :
  round_half_to_even (1 / 2 / GRID_SIZE) * GRID_SIZE = 0.
Proof.
  unfold round_half_to_even, GRID_SIZE.
  assert (F : Zfloor (1 / 2 / 1) = 0%Z) by (apply Zfloor_eq; lra).
  rewrite F. cbv zeta.
  destruct (Rlt_dec (1 / 2 / 1 - 0) (/ 2)) as [H | H]; [lra | ].
  destruct (Rlt_dec (/ 2) (1 / 2 / 1 - 0)) as [K | K]; [lra | ].
  simpl. ring.
Qed.

(** C4, as stated, fails: the snap is neither round-half-away-from-zero
    (it sends -2.5 to -2, not to -3) nor round-half-to-even (it sends 0.5
    to 1, not to 0). *)
Lemma snap_is_neither_half_away_nor_half_even :
  ~ ((forall p : R, snap p = round_half_away_from_zero (p / GRID_SIZE) * GRID_SIZE) \/
     (forall p : R, snap p = round_half_to_even (p / GRID_SIZE) * GRID_SIZE)).
Proof.
  intros [H | H].
  - specialize (H (- 5 / 2)).
    rewrite snap_minus_five_halves, round_half_away_minus_five_halves in H. lra.
  - specialize (H (1 / 2)).
    rewrite snap_one_half, round_half_even_one_half in H. lra.
Qed.

(** C4, amended.  The lattice snap rounds [p / s] component-wise to the
    nearest integer with ties going up (towards +infinity): for every
    coordinate [c] the snapped value is [n * s] for the one integer [n] with
    [n - 1/2 <= c / s < n + 1/2]; in particular a half-cell boundary
    [k + 1/2] snaps to [k + 1].  The rule is total and deterministic. *)
Theorem snap_rounds_half_up :
  (forall (camera : PerspectiveCamera.t) (x y : R),
      getSnappedWorldPosition (Some camera) x y =
      Vector3.mk (snap (Vector3.x (targetPos camera x y)))
                 (snap (Vector3.y (targetPos camera x y)))
                 (snap (Vector3.z (targetPos camera x y)))) /\
  (forall c : R, exists n : Z,
      snap c = IZR n * GRID_SIZE /\
      IZR n - / 2 <= c / GRID_SIZE < IZR n + / 2 /\
      (forall m : Z, IZR m - / 2 <= c / GRID_SIZE < IZR m + / 2 -> m = n)) /\
  (forall k : Z, snap ((IZR k + / 2) * GRID_SIZE) = IZR (k + 1) * GRID_SIZE).
Proof.
  split; [reflexivity | ]. split.
  - intro c. exists (Zfloor (c / GRID_SIZE + / 2)).
    pose proof (Zfloor_bound (c / GRID_SIZE + / 2)) as B.
    split; [reflexivity | ]. split; [lra | ].
    intros m Hm. symmetry. apply Zfloor_eq. lra.
  - intro k. unfold GRID_SIZE. rewrite !Rmult_1_r.
    apply snap_eq. rewrite plus_IZR. lra.
Qed.

(** ** The callback, case by case *)

Lemma onResults_hand (st : AppState) (landmarks : HandLandmarks)
    (others : list HandLandmarks) (thumbTip indexTip : Landmark.t) :
  nth_error landmarks 4 = Some thumbTip ->
  nth_error landmarks 8 = Some indexTip ->
  let pinching := isPinching thumbTip indexTip in
  let pos := getSnappedWorldPosition (cameraRef st)
               (midpointX thumbTip indexTip) (midpointY thumbTip indexTip) in
  let release := lastPinchStateRef st && negb pinching in
  onResults (mkHandResults (Some (landmarks :: others))) st =
  Normal
    (set_lastPinchStateRef
       (if release then placeBlock pos (afterPreview pos pinching st)
        else afterPreview pos pinching st)
       pinching,
     previewLog pos pinching st ++ (if release then [PlaceBlock pos] else [])).
Proof.
  intros H4 H8 pinching pos release.
  unfold onResults. cbn [multiHandLandmarks]. rewrite H4, H8.
  fold pinching. fold pos. unfold afterPreview, previewLog, release.
  destruct (previewCubeRef st) as [preview | ];
    cbn [lastPinchStateRef set_previewCubeRef];
    destruct (lastPinchStateRef st && negb pinching); reflexivity.
Qed.

Lemma onResults_noHand (st : AppState) (results : HandResults) :
  noHand results = true ->
  onResults results st =
  Normal
    (set_lastPinchStateRef
       match previewCubeRef st with
       | Some preview => set_previewCubeRef st (Group.set_visible preview false)
       | None => st
       end
       false,
     match previewCubeRef st with
     | Some _ => [PreviewVisible false]
     | None => []
     end).
Proof.
  intro H. unfold noHand in H. unfold onResults.
  destruct (multiHandLandmarks results) as [[ | l ls] | ]; try discriminate;
    destruct (previewCubeRef st); reflexivity.
Qed.

(** ** The store *)

Lemma exists_at_true_iff (pos : Vector3.t) (cubes : list Group.t) :
  exists_at pos cubes = true <-> In pos (map Group.position cubes).
Proof.
  unfold exists_at. rewrite existsb_exists, in_map_iff. split.
  - intros (c & Hc & E). apply equals_true_iff in E. exists c. split; assumption.
  - intros (c & E & Hc). exists c. split; [assumption | ].
    apply equals_true_iff. exact E.
Qed.

Lemma exists_at_false_iff (pos : Vector3.t) (cubes : list Group.t) :
  exists_at pos cubes = false <-> ~ In pos (map Group.position cubes).
Proof.
  rewrite <- exists_at_true_iff. destruct (exists_at pos cubes).
  - split; [discriminate | intro H; exfalso; apply H; reflexivity].
  - split; [intros _ K; discriminate | reflexivity].
Qed.

Lemma placeBlock_unmounted (pos : Vector3.t) (st : AppState) :
  sceneRef st = None -> placeBlock pos st = st.
Proof. intro H. unfold placeBlock. rewrite H. reflexivity. Qed.

Lemma placeBlock_occupied (pos : Vector3.t) (st : AppState) :
  occupied pos st = true -> placeBlock pos st = st.
Proof.
  unfold occupied, placeBlock. intro H.
  destruct (sceneRef st); [rewrite H | ]; reflexivity.
Qed.

Lemma placeBlock_free (pos : Vector3.t) (st : AppState) (scene : Scene.t) :
  sceneRef st = Some scene -> occupied pos st = false ->
  placeBlock pos st =
  mkAppState (Some (Scene.add scene (Group.mk pos true))) (cameraRef st)
             (previewCubeRef st) (placedCubesRef st ++ [Group.mk pos true])
             (lastPinchStateRef st) (blockCount st + 1).
Proof.
  unfold occupied, placeBlock. intros Hs Ho. rewrite Hs, Ho.
  unfold Group.position_copy, Group.new. cbn [Group.visible].
  destruct pos; reflexivity.
Qed.

(** What [placeBlock] does to the store, whatever the state. *)
Lemma placeBlock_cases (pos : Vector3.t) (st : AppState) :
  placeBlock pos st = st \/
  (sceneRef st <> None /\ occupied pos st = false /\
   placedCubesRef (placeBlock pos st) = placedCubesRef st ++ [Group.mk pos true] /\
   blockCount (placeBlock pos st) = (blockCount st + 1)%nat /\
   sceneRef (placeBlock pos st) <> None /\
   cameraRef (placeBlock pos st) = cameraRef st /\
   previewCubeRef (placeBlock pos st) = previewCubeRef st /\
   lastPinchStateRef (placeBlock pos st) = lastPinchStateRef st).
Proof.
  destruct (sceneRef st) as [scene | ] eqn:Hs.
  - destruct (occupied pos st) eqn:Ho.
    + left. apply placeBlock_occupied. exact Ho.
    + right. rewrite (placeBlock_free pos st scene Hs Ho). cbn.
      repeat split; try reflexivity; discriminate.
  - left. apply placeBlock_unmounted. exact Hs.
Qed.

Lemma occupied_after_placeBlock (pos : Vector3.t) (st : AppState) :
  sceneRef st <> None -> occupied pos (placeBlock pos st) = true.
Proof.
  intro Hs. destruct (placeBlock_cases pos st) as [E | (_ & Ho & Hp & _)].
  - destruct (occupied pos st) eqn:Ho.
    + rewrite E. exact Ho.
    + destruct (sceneRef st) as [scene | ] eqn:Hs'; [ | contradiction].
      rewrite (placeBlock_free pos st scene Hs' Ho). unfold occupied.
      cbn [placedCubesRef]. apply exists_at_true_iff. rewrite map_app.
      apply in_or_app. right. left. reflexivity.
  - unfold occupied. rewrite Hp. apply exists_at_true_iff. rewrite map_app.
    apply in_or_app. right. left. reflexivity.
Qed.

(** ** The invariant of the store *)

Lemma invariant_initialState : StoreInvariant initialState.
Proof.
  split; cbn.
  - constructor.
  - reflexivity.
  - reflexivity.
Qed.

Lemma invariant_placeBlock (pos : Vector3.t) (st : AppState) :
  StoreInvariant st -> StoreInvariant (placeBlock pos st).
Proof.
  intros [Hn Hc Hu].
  destruct (placeBlock_cases pos st) as [E | (Hs & Ho & Hp & Hb & Hs' & _)].
  - rewrite E. split; assumption.
  - split.
    + unfold storePositions. rewrite Hp, map_app. cbn [map Group.position].
      apply NoDup_app.
      * exact Hn.
      * repeat constructor. intros [].
      * intros a Ha [<- | []]. unfold occupied in Ho.
        apply exists_at_false_iff in Ho. contradiction.
    + rewrite Hb, Hp, length_app, Hc. reflexivity.
    + intro K. contradiction.
Qed.

(** ** One action and the store *)

Lemma afterPreview_fields (pos : Vector3.t) (pinching : bool) (st : AppState) :
  sceneRef (afterPreview pos pinching st) = sceneRef st /\
  cameraRef (afterPreview pos pinching st) = cameraRef st /\
  placedCubesRef (afterPreview pos pinching st) = placedCubesRef st /\
  lastPinchStateRef (afterPreview pos pinching st) = lastPinchStateRef st /\
  blockCount (afterPreview pos pinching st) = blockCount st.
Proof.
  unfold afterPreview. destruct (previewCubeRef st); cbn; repeat split; reflexivity.
Qed.

Lemma previewLog_no_placeBlock (pos : Vector3.t) (pinching : bool) (st : AppState)
    (f : Vector3.t -> bool) :
  filter (fun e => match e with PlaceBlock p => f p | _ => false end)
         (previewLog pos pinching st) = [].
Proof. unfold previewLog. destruct (previewCubeRef st); reflexivity. Qed.

(** The shapes of a hand-tracking result. *)
Lemma results_cases (results : HandResults) (st : AppState) :
  noHand results = true \/
  onResults results st = ThrowTypeError \/
  exists landmarks others thumbTip indexTip,
    results = mkHandResults (Some (landmarks :: others)) /\
    nth_error landmarks 4 = Some thumbTip /\
    nth_error landmarks 8 = Some indexTip.
Proof.
  destruct results as [[[ | landmarks others] | ]]; try (left; reflexivity).
  right. unfold onResults. cbn [multiHandLandmarks].
  destruct (nth_error landmarks 4) as [thumbTip | ] eqn:H4; [ | left; reflexivity].
  destruct (nth_error landmarks 8) as [indexTip | ] eqn:H8; [ | left; reflexivity].
  right. exists landmarks, others, thumbTip, indexTip. repeat split; assumption.
Qed.

Lemma placements_results (results : HandResults) (st st' : AppState) (log : list Event) :
  onResults results st = Normal (st', log) ->
  placements (HandsResults results) st =
  List.length
    (filter (fun e => match e with PlaceBlock p => placed p st st' | _ => false end) log).
Proof. intro H. unfold placements, step. rewrite H. reflexivity. Qed.

Lemma step_store_change (a : Action) (st : AppState) :
  StoreChange a st (fst (step a st)) (snd (step a st)).
Proof.
  destruct a as [c v w h | w h | results | ].
  - apply Unchanged; try reflexivity; try discriminate;
      cbn; unfold initThree; destruct (negb c || negb v); try reflexivity.
    + intro Hs. exact Hs.
    + intro Hs. discriminate.
  - apply Unchanged; try reflexivity; try discriminate;
      cbn; unfold handleResize; destruct (cameraRef st); try reflexivity;
      intro Hs; exact Hs.
  - destruct (results_cases results st)
      as [Hn | [Ht | (landmarks & others & thumbTip & indexTip & -> & H4 & H8)]].
    + pose proof (onResults_noHand st results Hn) as E.
      cbn [step]. rewrite E. cbn [fst snd].
      apply Unchanged; try discriminate.
      * destruct (previewCubeRef st); reflexivity.
      * destruct (previewCubeRef st); reflexivity.
      * destruct (previewCubeRef st); intro Hs; exact Hs.
      * rewrite (placements_results _ _ _ _ E).
        destruct (previewCubeRef st); reflexivity.
    + cbn [step]. rewrite Ht. cbn [fst snd].
      apply Unchanged; try reflexivity; try discriminate.
      * intro Hs. exact Hs.
      * unfold placements. cbn [step]. rewrite Ht. reflexivity.
    + pose proof (onResults_hand st landmarks others thumbTip indexTip H4 H8) as E.
      cbv zeta in E.
      set (pinching := isPinching thumbTip indexTip) in *.
      set (pos := getSnappedWorldPosition (cameraRef st)
                    (midpointX thumbTip indexTip) (midpointY thumbTip indexTip)) in *.
      clearbody pinching pos.
      destruct (afterPreview_fields pos pinching st) as (As & _ & Ap & _ & Ab).
      cbn [step]. rewrite E. cbn [fst snd].
      destruct (lastPinchStateRef st && negb pinching) eqn:R.
      * destruct (placeBlock_cases pos (afterPreview pos pinching st))
          as [Ep | (Hs & Ho & Hp & Hb & Hs' & _)].
        -- rewrite Ep. apply Unchanged; try discriminate; cbn; try congruence.
           rewrite (placements_results _ _ _ _ E), Ep.
           rewrite filter_app, previewLog_no_placeBlock. cbn.
           unfold placed, occupied. cbn [placedCubesRef set_lastPinchStateRef].
           rewrite Ap. destruct (exists_at pos (placedCubesRef st)); reflexivity.
        -- unfold occupied in Ho. rewrite Ap in Ho. rewrite As in Hs.
           apply (Placed _ _ _ _ pos (mkHandResults (Some (landmarks :: others)))).
           ++ reflexivity.
           ++ exact Hs.
           ++ exact Hs'.
           ++ exact Ho.
           ++ cbn. rewrite Hp, Ap. reflexivity.
           ++ cbn. rewrite Hb, Ab. reflexivity.
           ++ apply in_or_app. right. left. reflexivity.
           ++ rewrite (placements_results _ _ _ _ E).
              rewrite filter_app, previewLog_no_placeBlock. cbn.
              unfold placed, occupied. cbn [placedCubesRef set_lastPinchStateRef].
              rewrite Hp, Ap, Ho. cbn [negb andb].
              replace (exists_at pos (placedCubesRef st ++ [Group.mk pos true]))
                with true; [reflexivity | ].
              symmetry. apply exists_at_true_iff. rewrite map_app.
              apply in_or_app. right. left. reflexivity.
      * apply Unchanged; try discriminate; cbn; try congruence.
        rewrite (placements_results _ _ _ _ E), app_nil_r.
        rewrite previewLog_no_placeBlock. reflexivity.
  - cbn [step fst snd]. unfold resetScene.
    destruct (sceneRef st) as [scene | ] eqn:Hs.
    + apply Cleared; cbn; try reflexivity; congruence.
    + apply ClearedUnmounted; try reflexivity. exact Hs.
Qed.

Lemma invariant_step (a : Action) (st : AppState) :
  StoreInvariant st -> StoreInvariant (fst (step a st)).
Proof.
  intros [Hn Hc Hu].
  destruct (step_store_change a st)
    as [Ep Eb Es _ _ | pos results _ Hs Hs' Ho Ep Eb _ _ | _ Hs Hs' Ep Eb | _ Hs E].
  - split.
    + unfold storePositions. rewrite Ep. exact Hn.
    + rewrite Eb, Ep. exact Hc.
    + intro K. rewrite Ep. apply Hu. apply Es. exact K.
  - split.
    + unfold storePositions. rewrite Ep, map_app. cbn [map Group.position].
      apply NoDup_app.
      * exact Hn.
      * repeat constructor. intros [].
      * intros p Hp [<- | []]. unfold occupied in Ho.
        apply exists_at_false_iff in Ho. contradiction.
    + rewrite Eb, Ep, length_app, Hc. reflexivity.
    + intro K. contradiction.
  - split.
    + unfold storePositions. rewrite Ep. constructor.
    + rewrite Eb, Ep. reflexivity.
    + intros _. exact Ep.
  - rewrite E. split; assumption.
Qed.

Lemma invariant_run (acts : list Action) (st : AppState) :
  StoreInvariant st -> StoreInvariant (run acts st).
Proof.
  revert st. induction acts as [ | a rest IH]; intros st H; cbn [run].
  - exact H.
  - apply IH. apply invariant_step. exact H.
Qed.

Lemma count_run (acts : list Action) (st : AppState) :
  StoreInvariant st ->
  blockCount (run acts st) = placedSinceClear acts st (blockCount st).
Proof.
  revert st. induction acts as [ | a rest IH]; intros st H; cbn [run placedSinceClear].
  - reflexivity.
  - rewrite (IH _ (invariant_step a st H)). f_equal.
    destruct (step_store_change a st)
      as [_ Eb _ Na Ez | pos results -> _ _ _ _ Eb _ E1 | -> _ _ _ Eb | -> Hs E].
    + rewrite Eb, Ez. destruct a; try reflexivity; try lia. contradiction.
    + rewrite Eb, E1. reflexivity.
    + exact Eb.
    + rewrite E. destruct H as [_ Hc Hu]. rewrite Hc, (Hu Hs). reflexivity.
Qed.

Lemma resetScene_clears (st : AppState) :
  StoreInvariant st ->
  blockCount (resetScene st) = 0%nat /\ placedCubesRef (resetScene st) = [].
Proof.
  intros [_ Hc Hu]. unfold resetScene.
  destruct (sceneRef st) as [scene | ] eqn:Hs; cbn.
  - split; reflexivity.
  - rewrite Hc, (Hu eq_refl). split; reflexivity.
Qed.

(** C7.  In every reachable state the block count is the number of
    successful [placeBlock] calls since the last clear (or since the start)
    and the size of the store; a clear leaves count 0 and an empty store;
    and an action leaves the store as it is, appends one cube through a
    [placeBlock] call, or empties it through the clear: cubes are never
    removed one by one. *)
Theorem count_is_successful_places_since_clear (acts : list Action) :
  let st := run acts initialState in
  count st = placedSinceClear acts initialState 0 /\
  count st = List.length (placedCubesRef st) /\
  count (resetScene st) = 0%nat /\
  placedCubesRef (resetScene st) = [] /\
  forall a : Action,
    let st' := fst (step a st) in
    (placedCubesRef st' = placedCubesRef st /\ count st' = count st) \/
    (exists pos results,
        a = HandsResults results /\
        In (PlaceBlock pos) (snd (step a st)) /\
        occupied pos st = false /\
        placedCubesRef st' = placedCubesRef st ++ [Group.mk pos true] /\
        count st' = (count st + 1)%nat) \/
    (a = ClickClearScene /\ placedCubesRef st' = [] /\ count st' = 0%nat).
Proof.
  intro st.
  assert (I : StoreInvariant st) by (apply invariant_run, invariant_initialState).
  split; [apply (count_run acts initialState invariant_initialState) | ].
  split; [apply (inv_count st I) | ].
  split; [apply (resetScene_clears st I) | ].
  split; [apply (resetScene_clears st I) | ].
  intros a st'. unfold st', count.
  destruct (step_store_change a st)
    as [Ep Eb _ _ _ | pos results Ea _ _ Ho Ep Eb Hin _ | Ea _ _ Ep Eb | _ _ E].
  - left. split; assumption.
  - right. left. exists pos, results. repeat split; assumption.
  - right. right. repeat split; assumption.
  - left. rewrite E. split; reflexivity.
Qed.

Lemma scene_stays_mounted (acts : list Action) (st : AppState) :
  sceneRef st <> None -> sceneRef (run acts st) <> None.
Proof.
  revert st. induction acts as [ | a rest IH]; intros st H; cbn [run].
  - exact H.
  - apply IH.
    destruct (step_store_change a st)
      as [_ _ Es _ _ | pos results _ _ Hs' _ _ _ _ _ | _ _ Hs' _ _ | _ _ E].
    + intro K. apply H. apply Es. exact K.
    + exact Hs'.
    + exact Hs'.
    + rewrite E. exact H.
Qed.

Lemma scene_mounted_after_MountThree (w h : R) (acts : list Action) :
  sceneRef (run (MountThree true true w h :: acts) initialState) <> None.
Proof. cbn [run]. apply scene_stays_mounted. cbn. discriminate. Qed.

(** C3.  Placement never overwrites and is idempotent.  A position is
    occupied exactly when the store holds a cube with the very same three
    coordinates, and [placeBlock] at an occupied position changes nothing.
    In every state the component reaches once its scene is set up,
    [placeBlock] twice at a free position raises the count by exactly one,
    the second call changing nothing.  The store holds at most one cube per
    position, in every reachable state and after every [placeBlock]. *)
Theorem placeBlock_idempotent
    (innerWidth innerHeight : R) (acts : list Action) (pos : Vector3.t) :
  let st := run (MountThree true true innerWidth innerHeight :: acts) initialState in
  (forall s : AppState, occupied pos s = true <-> In pos (storePositions s)) /\
  (forall s : AppState, occupied pos s = true -> placeBlock pos s = s) /\
  (occupied pos st = false ->
     count (placeBlock pos st) = (count st + 1)%nat /\
     placeBlock pos (placeBlock pos st) = placeBlock pos st /\
     count (placeBlock pos (placeBlock pos st)) = (count st + 1)%nat) /\
  NoDup (storePositions (placeBlock pos st)) /\
  (forall acts' : list Action, NoDup (storePositions (run acts' initialState))).
Proof.
  intro st.
  assert (Hs : sceneRef st <> None) by apply scene_mounted_after_MountThree.
  assert (I : StoreInvariant st) by (apply invariant_run, invariant_initialState).
  split; [intro s; apply exists_at_true_iff | ].
  split; [intro s; apply placeBlock_occupied | ].
  split; [ | split].
  - intro Ho.
    assert (E2 : placeBlock pos (placeBlock pos st) = placeBlock pos st).
    { apply placeBlock_occupied. apply occupied_after_placeBlock. exact Hs. }
    assert (E1 : count (placeBlock pos st) = (count st + 1)%nat).
    { destruct (sceneRef st) as [scene | ] eqn:Hs'; [ | contradiction].
      rewrite (placeBlock_free pos st scene Hs' Ho). reflexivity. }
    rewrite E2. repeat split; assumption.
  - apply (inv_nodup _ (invariant_placeBlock pos st I)).
  - intro acts'. apply (inv_nodup _ (invariant_run acts' _ invariant_initialState)).
Qed.

(** ** Sample frames and states *)

Lemma PINCH_THRESHOLD_binary64 :
  Prim2SF PINCH_THRESHOLD = S754_finite false 6485183463413514 (- 57).
Proof. vm_compute. reflexivity. Qed.

(** The constant is the binary64 number nearest to 45/1000, which lies
    below it. *)
Lemma PINCH_THRESHOLD_value :
  JS.value PINCH_THRESHOLD = 3242591731706757 / 72057594037927936.
Proof.
  unfold JS.value. rewrite PINCH_THRESHOLD_binary64.
  cbn [powerRZ]. change (Pos.to_nat 57) with 57%nat. field.
Qed.

Lemma dist_same (a : Landmark.t) :
  JS.isFinite (Landmark.x a) = true -> JS.isFinite (Landmark.y a) = true ->
  JS.isFinite (Landmark.z a) = true ->
  Prim2SF (dist a a) = S754_zero false.
Proof.
  intros Hx Hy Hz. unfold dist.
  rewrite sqrt_spec, !add_spec.
  rewrite (pow2_sub_diag_finite _ Hx), (pow2_sub_diag_finite _ Hy),
    (pow2_sub_diag_finite _ Hz).
  reflexivity.
Qed.

Lemma isPinching_same (a : Landmark.t) :
  JS.isFinite (Landmark.x a) = true -> JS.isFinite (Landmark.y a) = true ->
  JS.isFinite (Landmark.z a) = true ->
  isPinching a a = true.
Proof.
  intros Hx Hy Hz. unfold isPinching, JS.lt.
  rewrite ltb_spec, (dist_same a Hx Hy Hz), PINCH_THRESHOLD_binary64. reflexivity.
Qed.

Lemma isPinching_center :
  isPinching (Landmark.mk (1 / 2) (1 / 2) 0) (Landmark.mk (1 / 2) (1 / 2) 0) = true.
Proof. vm_compute. reflexivity. Qed.

Lemma isPinching_apart :
  isPinching (Landmark.mk 0 (1 / 2) 0) (Landmark.mk 1 (1 / 2) 0) = false.
Proof. vm_compute. reflexivity. Qed.

Lemma in_placeBlock_log (q pos p : Vector3.t) (pinching release : bool) (st : AppState) :
  In (PlaceBlock q)
     (previewLog pos pinching st ++ (if release then [PlaceBlock p] else [])) <->
  release = true /\ q = p.
Proof.
  rewrite in_app_iff. unfold previewLog. split.
  - intros [H | H].
    + destruct (previewCubeRef st); cbn in H.
      * destruct H as [H | [H | []]]; discriminate.
      * destruct H.
    + destruct release; cbn in H.
      * destruct H as [H | []]. inversion H. split; reflexivity.
      * destruct H.
  - intros [-> ->]. right. left. reflexivity.
Qed.

Lemma onResults_handFrame (st : AppState) (thumbTip indexTip : Landmark.t) :
  let pinching := isPinching thumbTip indexTip in
  let pos := getSnappedWorldPosition (cameraRef st)
               (midpointX thumbTip indexTip) (midpointY thumbTip indexTip) in
  let release := lastPinchStateRef st && negb pinching in
  onResults (handFrame thumbTip indexTip) st =
  Normal
    (set_lastPinchStateRef
       (if release then placeBlock pos (afterPreview pos pinching st)
        else afterPreview pos pinching st)
       pinching,
     previewLog pos pinching st ++ (if release then [PlaceBlock pos] else [])).
Proof.
  exact (onResults_hand st (handWith thumbTip indexTip) [] thumbTip indexTip
                        eq_refl eq_refl).
Qed.

Lemma getSnappedWorldPosition_center (fov aspect near far : R) :
  0 < fov < 180 -> aspect <> 0 -> 0 < near < far ->
  getSnappedWorldPosition (Some (cameraAtOrigin fov aspect near far))
                          (1 / 2) (1 / 2) = Vector3.mk 0 0 (- 6).
Proof.
  intros Hfov Ha Hnf. pose proof (halfFovTan_pos fov Hfov) as HT.
  unfold getSnappedWorldPosition. cbv zeta.
  rewrite targetPos_center by (tauto || lra).
  cbn [Vector3.x Vector3.y Vector3.z]. apply Vector3_ext.
  - apply (snap_IZR 0).
  - apply (snap_IZR 0).
  - apply (snap_IZR (- 6)).
Qed.

Lemma mountedState_eq :
  mountedState =
  mkAppState (Some Scene.new) (Some (cameraAtOrigin 70 (16 / 9) (1 / 100) 100))
             (Some (Group.mk Vector3.new false)) [] false 0.
Proof. reflexivity. Qed.

Lemma pinchingState_eq :
  pinchingState =
  mkAppState (Some Scene.new) (Some (cameraAtOrigin 70 (16 / 9) (1 / 100) 100))
             (Some (Group.mk (Vector3.mk 0 0 (- 6)) true)) [] true 0.
Proof.
  unfold pinchingState, pinchedAtCenter. cbn [step].
  rewrite onResults_handFrame.
  rewrite isPinching_center. rewrite andb_false_r. cbn [fst].
  rewrite mountedState_eq. unfold afterPreview.
  cbn [previewCubeRef cameraRef].
  unfold midpointX, midpointY. cbn [Landmark.x Landmark.y].
  rewrite value_half.
  assert (P : getSnappedWorldPosition
                (Some (cameraAtOrigin 70 (16 / 9) (1 / 100) 100)) (1 / 2) (1 / 2) =
              Vector3.mk 0 0 (- 6)).
  { apply getSnappedWorldPosition_center; lra. }
  rewrite P. reflexivity.
Qed.

(** ** The release edge *)

(** C1.  Over two consecutively processed hand frames, [placeBlock] is
    called by the second frame exactly when the first frame was pinching and
    the second is not; the call is made at the position snapped from the
    second frame, and on a mounted scene with that position free it appends
    the cube.  A frame without a hand resets the stored pinch state to
    false, so the hand frame that follows it calls [placeBlock] in no case. *)
Theorem release_edge_iff_pinch_then_open
    (st : AppState) (l1 l2 : HandLandmarks) (o1 o2 : list HandLandmarks)
    (t1 i1 t2 i2 : Landmark.t) :
  nth_error l1 4 = Some t1 -> nth_error l1 8 = Some i1 ->
  nth_error l2 4 = Some t2 -> nth_error l2 8 = Some i2 ->
  exists st1 log1 st2 log2,
    onResults (mkHandResults (Some (l1 :: o1))) st = Normal (st1, log1) /\
    onResults (mkHandResults (Some (l2 :: o2))) st1 = Normal (st2, log2) /\
    lastPinchStateRef st1 = isPinching t1 i1 /\
    ((exists q, In (PlaceBlock q) log2) <->
     (isPinching t1 i1 = true /\ isPinching t2 i2 = false)) /\
    (forall q, In (PlaceBlock q) log2 ->
       q = getSnappedWorldPosition (cameraRef st1) (midpointX t2 i2) (midpointY t2 i2) /\
       placedCubesRef st2 = placedCubesRef (placeBlock q st1) /\
       (sceneRef st1 <> None -> occupied q st1 = false ->
        placedCubesRef st2 = placedCubesRef st1 ++ [Group.mk q true] /\
        count st2 = (count st1 + 1)%nat)) /\
    (forall lost : HandResults, noHand lost = true ->
       exists st0 log0 st3 log3,
         onResults lost st1 = Normal (st0, log0) /\
         lastPinchStateRef st0 = false /\
         (forall q, ~ In (PlaceBlock q) log0) /\
         onResults (mkHandResults (Some (l2 :: o2))) st0 = Normal (st3, log3) /\
         (forall q, ~ In (PlaceBlock q) log3)).
Proof.
  intros H14 H18 H24 H28.
  pose proof (onResults_hand st l1 o1 t1 i1 H14 H18) as E1. cbv zeta in E1.
  match type of E1 with _ = Normal (?s, ?l) => set (st1 := s) in *; set (log1 := l) in * end.
  pose proof (onResults_hand st1 l2 o2 t2 i2 H24 H28) as E2. cbv zeta in E2.
  match type of E2 with _ = Normal (?s, ?l) => set (st2 := s) in *; set (log2 := l) in * end.
  assert (L1 : lastPinchStateRef st1 = isPinching t1 i1) by reflexivity.
  exists st1, log1, st2, log2.
  split; [exact E1 | ]. split; [exact E2 | ]. split; [exact L1 | ].
  split; [ | split].
  - unfold log2. rewrite L1. split.
    + intros (q & Hq). apply in_placeBlock_log in Hq. destruct Hq as [Hr _].
      apply andb_true_iff in Hr. destruct Hr as [Ha Hb].
      apply negb_true_iff in Hb. split; assumption.
    + intros [Ha Hb]. eexists. apply in_placeBlock_log.
      rewrite Ha, Hb. split; reflexivity.
  - intros q Hq. unfold log2 in Hq. apply in_placeBlock_log in Hq.
    destruct Hq as [Hr ->].
    set (p := getSnappedWorldPosition (cameraRef st1) (midpointX t2 i2) (midpointY t2 i2)) in *.
    apply andb_true_iff in Hr. destruct Hr as [Ha Hb].
    apply negb_true_iff in Hb.
    destruct (afterPreview_fields p (isPinching t2 i2) st1) as (As & _ & Ap & _ & Ab).
    assert (S2 : placedCubesRef st2 = placedCubesRef (placeBlock p st1) /\
                 blockCount st2 = blockCount (placeBlock p st1)).
    { unfold st2. rewrite Ha, Hb. cbn [andb negb set_lastPinchStateRef placedCubesRef blockCount].
      destruct (placeBlock_cases p (afterPreview p false st1))
        as [Ep | (Hs & Ho & Hp & Hbc & _)];
      destruct (placeBlock_cases p st1) as [Ep' | (Hs1 & Ho1 & Hp1 & Hbc1 & _)].
      - rewrite Ep, Ep'. rewrite Hb in Ap, Ab. split; assumption.
      - exfalso. rewrite Hb in As, Ap.
        destruct (sceneRef st1) as [scene | ] eqn:Hsc; [ | contradiction].
        unfold placeBlock in Ep. rewrite As in Ep. unfold occupied in Ho1.
        rewrite Ap, Ho1 in Ep.
        apply (f_equal blockCount) in Ep. cbn in Ep. lia.
      - exfalso. rewrite Hb in As, Ap. unfold occupied in Ho. rewrite Ap in Ho.
        rewrite As in Hs.
        destruct (sceneRef st1) as [scene | ] eqn:Hsc; [ | contradiction].
        unfold placeBlock in Ep'. rewrite Hsc, Ho in Ep'.
        apply (f_equal blockCount) in Ep'. cbn in Ep'. lia.
      - rewrite Hb in Ap, Ab. rewrite Hp, Hp1, Hbc, Hbc1, Ap, Ab. split; reflexivity. }
    split; [reflexivity | ]. split; [apply S2 | ].
    intros Hs Ho. destruct S2 as [S2 S3]. unfold count. rewrite S2, S3.
    destruct (sceneRef st1) as [scene | ] eqn:Hsc; [ | contradiction].
    rewrite (placeBlock_free p st1 scene Hsc Ho). split; reflexivity.
  - intros lost Hlost.
    pose proof (onResults_noHand st1 lost Hlost) as E0.
    match type of E0 with _ = Normal (?s, ?l) => set (st0 := s) in *; set (log0 := l) in * end.
    pose proof (onResults_hand st0 l2 o2 t2 i2 H24 H28) as E3. cbv zeta in E3.
    match type of E3 with _ = Normal (?s, ?l) => set (st3 := s) in *; set (log3 := l) in * end.
    exists st0, log0, st3, log3.
    split; [exact E0 | ]. split; [reflexivity | ]. split; [ | split; [exact E3 | ]].
    + intros q Hq. unfold log0 in Hq.
      destruct (previewCubeRef st1); cbn in Hq.
      * destruct Hq as [Hq | []]. discriminate.
      * exact Hq.
    + intros q Hq. unfold log3 in Hq. apply in_placeBlock_log in Hq.
      destruct Hq as [Hr _]. cbn in Hr. discriminate.
Qed.

Lemma release_edge_iff_pinch_then_open_witness :
  exists st1 log1 st2 log2,
    onResults pinchedAtCenter mountedState = Normal (st1, log1) /\
    onResults openAtCenter st1 = Normal (st2, log2) /\
    exists q, In (PlaceBlock q) log2.
Proof.
  destruct (release_edge_iff_pinch_then_open mountedState
              (handWith (Landmark.mk (1 / 2) (1 / 2) 0) (Landmark.mk (1 / 2) (1 / 2) 0))
              (handWith (Landmark.mk 0 (1 / 2) 0) (Landmark.mk 1 (1 / 2) 0))
              [] []
              (Landmark.mk (1 / 2) (1 / 2) 0) (Landmark.mk (1 / 2) (1 / 2) 0)
              (Landmark.mk 0 (1 / 2) 0) (Landmark.mk 1 (1 / 2) 0)
              eq_refl eq_refl eq_refl eq_refl)
    as (st1 & log1 & st2 & log2 & E1 & E2 & _ & Hiff & _).
  exists st1, log1, st2, log2.
  split; [exact E1 | ]. split; [exact E2 | ].
  apply Hiff. split.
  - apply isPinching_center.
  - apply isPinching_apart.
Defined.

(** ** Frames without a hand *)

(** C6.  A frame without a hand (no landmark list, or an empty one) is
    processed normally and forces the idle state: the preview, if there is
    one, is hidden, the stored pinch state is false, [placeBlock] is not
    called and the store, the scene and the count are as before, whatever
    the state was, a pinch in progress included. *)
Theorem no_hand_forces_idle (st : AppState) (results : HandResults) :
  multiHandLandmarks results = None \/ multiHandLandmarks results = Some [] ->
  exists st' log,
    onResults results st = Normal (st', log) /\
    controllerState st' = Idle /\
    (forall preview, previewCubeRef st' = Some preview ->
                     Group.visible preview = false) /\
    lastPinchStateRef st' = false /\
    (forall q, ~ In (PlaceBlock q) log) /\
    firstIndex isPlaceBlock log = None /\
    placedCubesRef st' = placedCubesRef st /\
    sceneRef st' = sceneRef st /\
    count st' = count st.
Proof.
  intro H.
  assert (Hn : noHand results = true).
  { unfold noHand. destruct H as [-> | ->]; reflexivity. }
  rewrite (onResults_noHand st results Hn).
  eexists. eexists. split; [reflexivity | ].
  unfold controllerState, count.
  destruct (previewCubeRef st) as [preview | ] eqn:Hp; cbn.
  - repeat split; try reflexivity.
    + intros p' E. inversion E. reflexivity.
    + intros q [K | []]. discriminate.
  - rewrite Hp. repeat split; try reflexivity.
    + intros p' E. discriminate.
    + intros q [].
Qed.

Lemma no_hand_forces_idle_witness :
  (multiHandLandmarks (mkHandResults (Some [])) = None \/
   multiHandLandmarks (mkHandResults (Some [])) = Some []) /\
  lastPinchStateRef pinchingState = true /\
  exists st' log,
    onResults (mkHandResults (Some [])) pinchingState = Normal (st', log) /\
    controllerState st' = Idle.
Proof.
  split; [right; reflexivity | ].
  split; [rewrite pinchingState_eq; reflexivity | ].
  destruct (no_hand_forces_idle pinchingState (mkHandResults (Some []))
              (or_intror eq_refl))
    as (st' & log & E & Hidle & _).
  exists st', log. split; assumption.
Defined.

(** ** Before the scene exists *)

(** C10.  While [sceneRef] is null, [placeBlock] returns at once for every
    position and leaves the state as it is; a release edge that arrives then
    is processed normally, calls [placeBlock], and adds no cube and does not
    change the count. *)
Theorem placeBlock_without_scene_is_noop (st : AppState) (pos : Vector3.t) :
  sceneRef st = None ->
  placeBlock pos st = st /\
  forall (landmarks : HandLandmarks) (others : list HandLandmarks)
         (thumbTip indexTip : Landmark.t),
    nth_error landmarks 4 = Some thumbTip ->
    nth_error landmarks 8 = Some indexTip ->
    lastPinchStateRef st = true ->
    isPinching thumbTip indexTip = false ->
    exists st' log,
      onResults (mkHandResults (Some (landmarks :: others))) st = Normal (st', log) /\
      (exists q, In (PlaceBlock q) log) /\
      placedCubesRef st' = placedCubesRef st /\
      count st' = count st /\
      sceneRef st' = None.
Proof.
  intro Hs. split; [apply placeBlock_unmounted; exact Hs | ].
  intros landmarks others thumbTip indexTip H4 H8 Hl Hp.
  rewrite (onResults_hand st landmarks others thumbTip indexTip H4 H8).
  cbv zeta. rewrite Hl, Hp. cbn [andb negb].
  set (p := getSnappedWorldPosition (cameraRef st)
              (midpointX thumbTip indexTip) (midpointY thumbTip indexTip)).
  destruct (afterPreview_fields p false st) as (As & _ & Ap & _ & Ab).
  rewrite (placeBlock_unmounted p (afterPreview p false st)) by congruence.
  eexists. eexists. split; [reflexivity | ]. unfold count. cbn.
  repeat split; try congruence.
  exists p. apply in_or_app. right. left. reflexivity.
Qed.

Lemma unmountedPinchingState_eq :
  unmountedPinchingState = mkAppState None None None [] true 0.
Proof.
  unfold unmountedPinchingState, pinchedAtCenter. cbn [step].
  rewrite onResults_handFrame. rewrite isPinching_center. reflexivity.
Qed.

Lemma placeBlock_without_scene_is_noop_witness :
  sceneRef unmountedPinchingState = None /\
  placeBlock (Vector3.mk 2 0 (- 6)) unmountedPinchingState = unmountedPinchingState /\
  exists st' log,
    onResults openAtCenter unmountedPinchingState = Normal (st', log) /\
    (exists q, In (PlaceBlock q) log) /\
    placedCubesRef st' = [] /\ count st' = 0%nat.
Proof.
  assert (Hs : sceneRef unmountedPinchingState = None)
    by (rewrite unmountedPinchingState_eq; reflexivity).
  assert (Hl : lastPinchStateRef unmountedPinchingState = true)
    by (rewrite unmountedPinchingState_eq; reflexivity).
  destruct (placeBlock_without_scene_is_noop unmountedPinchingState
              (Vector3.mk 2 0 (- 6)) Hs) as [Hp Hf].
  split; [exact Hs | ]. split; [exact Hp | ].
  destruct (Hf (handWith (Landmark.mk 0 (1 / 2) 0) (Landmark.mk 1 (1 / 2) 0)) []
               (Landmark.mk 0 (1 / 2) 0) (Landmark.mk 1 (1 / 2) 0)
               eq_refl eq_refl Hl isPinching_apart)
    as (st' & log & E & Hq & Hc & Hn & _).
  exists st', log. split; [exact E | ]. split; [exact Hq | ].
  rewrite Hc, Hn, unmountedPinchingState_eq. split; reflexivity.
Defined.

(** ** The frame of the release *)

(** C8, as stated, fails: on a release frame the preview is hidden first
    (second event of the frame) and [placeBlock] is called after it (third
    event). *)
Lemma preview_is_hidden_before_placeBlock :
  lastPinchStateRef pinchingState = true /\
  controllerState pinchingState = Previewing /\
  exists st' log,
    onResults openAtCenter pinchingState = Normal (st', log) /\
    log = [PreviewPosition (Vector3.mk 0 0 (- 6)); PreviewVisible false;
           PlaceBlock (Vector3.mk 0 0 (- 6))] /\
    firstIndex isHidePreview log = Some 1%nat /\
    firstIndex isPlaceBlock log = Some 2%nat /\
    ~ placeBeforeHide log.
Proof.
  rewrite pinchingState_eq. split; [reflexivity | ]. split; [reflexivity | ].
  unfold openAtCenter. rewrite onResults_handFrame.
  rewrite isPinching_apart. cbn [lastPinchStateRef cameraRef andb negb].
  unfold midpointX, midpointY. cbn [Landmark.x Landmark.y].
  rewrite value_half_of_0_1, value_half.
  rewrite getSnappedWorldPosition_center by lra.
  eexists. eexists. split; [reflexivity | ].
  split; [reflexivity | ]. split; [reflexivity | ]. split; [reflexivity | ].
  intros (m & n & Hm & Hn & Hlt). cbn in Hm, Hn.
  inversion Hm. inversion Hn. subst. lia.
Qed.

(** C8, amended.  On the frame of a release (the stored pinch state is
    true and the frame is not pinching) [placeBlock] is called exactly once,
    with the position snapped from the midpoint of the thumb tip and the
    index tip of that frame; the preview, when there is one, has been moved
    to that position and hidden earlier in the same frame, and the frame
    ends in the idle state. *)
Theorem placeBlock_called_on_release_after_hide
    (st : AppState) (landmarks : HandLandmarks) (others : list HandLandmarks)
    (thumbTip indexTip : Landmark.t) :
  nth_error landmarks 4 = Some thumbTip ->
  nth_error landmarks 8 = Some indexTip ->
  lastPinchStateRef st = true ->
  isPinching thumbTip indexTip = false ->
  let p := getSnappedWorldPosition (cameraRef st)
             (midpointX thumbTip indexTip) (midpointY thumbTip indexTip) in
  midpointX thumbTip indexTip =
    JS.value ((Landmark.x thumbTip + Landmark.x indexTip) / 2)%float /\
  midpointY thumbTip indexTip =
    JS.value ((Landmark.y thumbTip + Landmark.y indexTip) / 2)%float /\
  exists st' log,
    onResults (mkHandResults (Some (landmarks :: others))) st = Normal (st', log) /\
    log = match previewCubeRef st with
          | Some _ => [PreviewPosition p; PreviewVisible false; PlaceBlock p]
          | None => [PlaceBlock p]
          end /\
    (forall preview, previewCubeRef st = Some preview ->
       firstIndex isHidePreview log = Some 1%nat /\
       firstIndex isPlaceBlock log = Some 2%nat) /\
    placedCubesRef st' = placedCubesRef (placeBlock p st) /\
    count st' = count (placeBlock p st) /\
    controllerState st' = Idle /\
    lastPinchStateRef st' = false.
Proof.
  intros H4 H8 Hl Hp p.
  split; [reflexivity | ]. split; [reflexivity | ].
  rewrite (onResults_hand st landmarks others thumbTip indexTip H4 H8).
  cbv zeta. fold p. rewrite Hl, Hp. cbn [andb negb].
  eexists. eexists. split; [reflexivity | ].
  split; [unfold previewLog; destruct (previewCubeRef st); reflexivity | ].
  split.
  { intros preview E. unfold previewLog. rewrite E. split; reflexivity. }
  unfold count, controllerState, afterPreview, placeBlock, occupied.
  destruct (previewCubeRef st) as [preview | ] eqn:Hpv;
    cbn [sceneRef placedCubesRef set_previewCubeRef];
    destruct (sceneRef st) as [scene | ];
    try destruct (exists_at p (placedCubesRef st));
    cbn; rewrite ?Hpv; repeat split; reflexivity.
Qed.

Lemma placeBlock_called_on_release_after_hide_witness :
  lastPinchStateRef pinchingState = true /\
  isPinching (Landmark.mk 0 (1 / 2) 0) (Landmark.mk 1 (1 / 2) 0) = false /\
  exists st' log,
    onResults openAtCenter pinchingState = Normal (st', log) /\
    controllerState st' = Idle.
Proof.
  assert (Hl : lastPinchStateRef pinchingState = true)
    by (rewrite pinchingState_eq; reflexivity).
  split; [exact Hl | ]. split; [apply isPinching_apart | ].
  destruct (placeBlock_called_on_release_after_hide pinchingState
              (handWith (Landmark.mk 0 (1 / 2) 0) (Landmark.mk 1 (1 / 2) 0)) []
              (Landmark.mk 0 (1 / 2) 0) (Landmark.mk 1 (1 / 2) 0)
              eq_refl eq_refl Hl isPinching_apart)
    as (_ & _ & st' & log & E & _ & _ & _ & _ & Hi & _).
  exists st', log. split; assumption.
Defined.

(** ** Without a camera *)

(** C9.  When the camera is not available the projector does not fail: for
    every screen point it returns the origin (0, 0, 0).  A hand frame
    processed in that situation ends normally, and every position it gives
    to the preview or to [placeBlock] is the origin. *)
Theorem projection_without_camera_is_origin (x y : R) :
  getSnappedWorldPosition None x y = Vector3.mk 0 0 0 /\
  forall (st : AppState) (landmarks : HandLandmarks) (others : list HandLandmarks)
         (thumbTip indexTip : Landmark.t),
    cameraRef st = None ->
    nth_error landmarks 4 = Some thumbTip ->
    nth_error landmarks 8 = Some indexTip ->
    exists st' log,
      onResults (mkHandResults (Some (landmarks :: others))) st = Normal (st', log) /\
      forall p, In (PreviewPosition p) log \/ In (PlaceBlock p) log ->
                p = Vector3.mk 0 0 0.
Proof.
  split; [reflexivity | ].
  intros st landmarks others thumbTip indexTip Hc H4 H8.
  rewrite (onResults_hand st landmarks others thumbTip indexTip H4 H8).
  cbv zeta. rewrite Hc. cbn [getSnappedWorldPosition].
  eexists. eexists. split; [reflexivity | ].
  intros p [H | H]; apply in_app_or in H; unfold previewLog in H;
    destruct (previewCubeRef st);
    destruct (lastPinchStateRef st && negb (isPinching thumbTip indexTip));
    cbn in H; repeat (destruct H as [H | H]; try discriminate);
    try contradiction; inversion H; reflexivity.
Qed.

Lemma projection_without_camera_is_origin_witness :
  cameraRef unmountedPinchingState = None /\
  exists st' log,
    onResults openAtCenter unmountedPinchingState = Normal (st', log) /\
    forall p, In (PlaceBlock p) log -> p = Vector3.mk 0 0 0.
Proof.
  assert (Hc : cameraRef unmountedPinchingState = None)
    by (rewrite unmountedPinchingState_eq; reflexivity).
  split; [exact Hc | ].
  destruct (projection_without_camera_is_origin (1 / 2) (1 / 2)) as [_ H].
  destruct (H unmountedPinchingState
              (handWith (Landmark.mk 0 (1 / 2) 0) (Landmark.mk 1 (1 / 2) 0)) []
              (Landmark.mk 0 (1 / 2) 0) (Landmark.mk 1 (1 / 2) 0)
              Hc eq_refl eq_refl) as (st' & log & E & Hp).
  exists st', log. split; [exact E | ].
  intros p Hin. apply Hp. right. exact Hin.
Defined.

(** ** The pinch test and the store, on samples *)

(** C2.  The pinch test compares the Euclidean distance of the thumb tip
    (landmark 4) and the index tip (landmark 8), taken over all three
    coordinates and computed in binary64 arithmetic, with [PINCH_THRESHOLD],
    the binary64 number written [0.045] (it lies just below 45/1000): the
    hand is pinching exactly when the computed distance is strictly below
    the threshold, and at or above it the hand is not pinching.  Read in
    real numbers, the hand is pinching exactly when the computed distance
    is finite and its value is below the value of the threshold.  A
    processed hand frame shows and stores the outcome of the test. *)
Theorem isPinching_iff_distance_below_threshold (thumbTip indexTip : Landmark.t) :
  let dx := (Landmark.x thumbTip - Landmark.x indexTip)%float in
  let dy := (Landmark.y thumbTip - Landmark.y indexTip)%float in
  let dz := (Landmark.z thumbTip - Landmark.z indexTip)%float in
  let d := PrimFloat.sqrt (dx * dx + dy * dy + dz * dz)%float in
  Prim2SF PINCH_THRESHOLD = S754_finite false 6485183463413514 (- 57) /\
  JS.value PINCH_THRESHOLD = 3242591731706757 / 72057594037927936 /\
  JS.value PINCH_THRESHOLD < 45 / 1000 /\
  dist thumbTip indexTip = d /\
  (isPinching thumbTip indexTip = true <-> (d <? PINCH_THRESHOLD)%float = true) /\
  (isPinching thumbTip indexTip = true <->
   JS.isFinite d = true /\ JS.value d < JS.value PINCH_THRESHOLD) /\
  ((PINCH_THRESHOLD <=? d)%float = true -> isPinching thumbTip indexTip = false) /\
  (forall (st : AppState) (landmarks : HandLandmarks) (others : list HandLandmarks),
      nth_error landmarks 4 = Some thumbTip ->
      nth_error landmarks 8 = Some indexTip ->
      exists st' log,
        onResults (mkHandResults (Some (landmarks :: others))) st = Normal (st', log) /\
        lastPinchStateRef st' = isPinching thumbTip indexTip /\
        (forall preview, previewCubeRef st' = Some preview ->
                         Group.visible preview = isPinching thumbTip indexTip)).
Proof.
  intros dx dy dz d.
  assert (D : dist thumbTip indexTip = d) by reflexivity.
  split; [exact PINCH_THRESHOLD_binary64 | ].
  split; [exact PINCH_THRESHOLD_value | ].
  split; [rewrite PINCH_THRESHOLD_value; lra | ].
  split; [exact D | ].
  split; [unfold isPinching, JS.lt; rewrite D; split; intro H; exact H | ].
  split; [unfold isPinching, JS.lt; rewrite D;
          exact (sqrt_ltb_value _ _ _ _ PINCH_THRESHOLD_binary64) | ].
  split; [intro H; unfold isPinching, JS.lt; rewrite D; apply leb_true_ltb_false; exact H | ].
  intros st landmarks others H4 H8.
  rewrite (onResults_hand st landmarks others thumbTip indexTip H4 H8). cbv zeta.
  set (pinching := isPinching thumbTip indexTip).
  set (p := getSnappedWorldPosition (cameraRef st)
              (midpointX thumbTip indexTip) (midpointY thumbTip indexTip)).
  eexists. eexists. split; [reflexivity | ]. split; [reflexivity | ].
  intros preview. cbn [previewCubeRef set_lastPinchStateRef].
  assert (A : forall g, previewCubeRef (afterPreview p pinching st) = Some g ->
                        Group.visible g = pinching).
  { intros g. unfold afterPreview. destruct (previewCubeRef st) eqn:Hp; cbn.
    - intro E. inversion E. reflexivity.
    - rewrite Hp. discriminate. }
  destruct (lastPinchStateRef st && negb pinching).
  - destruct (placeBlock_cases p (afterPreview p pinching st))
      as [E | (_ & _ & _ & _ & _ & _ & Hpv & _)].
    + rewrite E. apply A.
    + rewrite Hpv. apply A.
  - apply A.
Qed.

Lemma isPinching_iff_distance_below_threshold_witness :
  (PINCH_THRESHOLD <=?
   dist (Landmark.mk PINCH_THRESHOLD 0 0) (Landmark.mk 0 0 0))%float = true /\
  isPinching (Landmark.mk PINCH_THRESHOLD 0 0) (Landmark.mk 0 0 0) = false.
Proof.
  assert (H : (PINCH_THRESHOLD <=?
               dist (Landmark.mk PINCH_THRESHOLD 0 0) (Landmark.mk 0 0 0))%float = true)
    by (vm_compute; reflexivity).
  split; [exact H | ].
  apply (isPinching_iff_distance_below_threshold
           (Landmark.mk PINCH_THRESHOLD 0 0) (Landmark.mk 0 0 0)).
  exact H.
Defined.

Lemma placeBlock_idempotent_witness :
  occupied (Vector3.mk 2 0 (- 6)) mountedState = false /\
  count (placeBlock (Vector3.mk 2 0 (- 6))
           (placeBlock (Vector3.mk 2 0 (- 6)) mountedState)) = 1%nat.
Proof.
  assert (Ho : occupied (Vector3.mk 2 0 (- 6)) mountedState = false)
    by (rewrite mountedState_eq; reflexivity).
  split; [exact Ho | ].
  destruct (placeBlock_idempotent 16 9 [] (Vector3.mk 2 0 (- 6)))
    as (_ & _ & H & _).
  destruct (H Ho) as (_ & _ & H2).
  change (run [MountThree true true 16 9] initialState) with mountedState in H2.
  rewrite H2, mountedState_eq. reflexivity.
Defined.

(** * Further properties of the component *)

(** ** Malformed hands *)

(** X1.  The callback throws exactly when the first hand of the result has
    at most eight landmarks (so that landmark 4 or landmark 8 is missing);
    the exception comes before any write, so the frame leaves the state as
    it was and logs nothing. *)
Theorem onResults_throws_iff_hand_too_short (results : HandResults) (st : AppState) :
  (onResults results st = ThrowTypeError <->
   exists landmarks others,
     multiHandLandmarks results = Some (landmarks :: others) /\
     (List.length landmarks <= 8)%nat) /\
  (onResults results st = ThrowTypeError ->
   step (HandsResults results) st = (st, [])).
Proof.
  split.
  - unfold onResults.
    destruct (multiHandLandmarks results) as [[ | landmarks others] | ] eqn:E.
    + split.
      * destruct (previewCubeRef st); discriminate.
      * intros (l & o & K & _). discriminate.
    + destruct (nth_error landmarks 4) as [thumbTip | ] eqn:H4.
      * destruct (nth_error landmarks 8) as [indexTip | ] eqn:H8.
        -- split.
           ++ destruct (previewCubeRef st);
                destruct (lastPinchStateRef _ && negb _); discriminate.
           ++ intros (l & o & K & Hl). inversion K. subst l o.
              apply nth_error_None in Hl. congruence.
        -- split; [ | reflexivity].
           intros _. exists landmarks, others. split; [reflexivity | ].
           apply nth_error_None. exact H8.
      * split; [ | reflexivity].
        intros _. exists landmarks, others. split; [reflexivity | ].
        apply nth_error_None in H4. lia.
    + split.
      * destruct (previewCubeRef st); discriminate.
      * intros (l & o & K & _). discriminate.
  - intro H. cbn [step]. rewrite H. reflexivity.
Qed.

Lemma onResults_throws_iff_hand_too_short_witness :
  onResults (mkHandResults (Some [[]])) mountedState = ThrowTypeError.
Proof.
  apply (onResults_throws_iff_hand_too_short (mkHandResults (Some [[]])) mountedState).
  exists [], []. split; [reflexivity | cbn; lia].
Defined.

(** ** Runs of frames *)

Lemma step_results_signal (results : HandResults) (st : AppState) :
  let st' := fst (step (HandsResults results) st) in
  let log := snd (step (HandsResults results) st) in
  match frameSignal results with
  | NoHandSignal =>
      lastPinchStateRef st' = false /\ filter isPlaceBlock log = []
  | MalformedSignal =>
      st' = st /\ log = []
  | HandSignal pinching =>
      lastPinchStateRef st' = pinching /\
      List.length (filter isPlaceBlock log) =
      (if lastPinchStateRef st && negb pinching then 1 else 0)%nat
  end.
Proof.
  unfold frameSignal. cbn [step].
  destruct results as [[[ | landmarks others] | ]]; cbn [multiHandLandmarks].
  - rewrite onResults_noHand by reflexivity. cbn [fst snd].
    destruct (previewCubeRef st); split; reflexivity.
  - destruct (nth_error landmarks 4) as [thumbTip | ] eqn:H4;
      [destruct (nth_error landmarks 8) as [indexTip | ] eqn:H8 | ].
    + rewrite (onResults_hand st landmarks others thumbTip indexTip H4 H8).
      cbv zeta. cbn [fst snd]. split; [reflexivity | ].
      rewrite filter_app. unfold previewLog.
      destruct (previewCubeRef st);
        destruct (lastPinchStateRef st && negb (isPinching thumbTip indexTip));
        reflexivity.
    + unfold onResults. cbn [multiHandLandmarks]. rewrite H4, H8.
      split; reflexivity.
    + unfold onResults. cbn [multiHandLandmarks]. rewrite H4.
      split; reflexivity.
  - rewrite onResults_noHand by reflexivity. cbn [fst snd].
    destruct (previewCubeRef st); split; reflexivity.
Qed.

Lemma step_count_le_placeBlock_calls (a : Action) (st : AppState) :
  (blockCount (fst (step a st)) <=
   blockCount st + List.length (filter isPlaceBlock (snd (step a st))))%nat.
Proof.
  destruct (step_store_change a st)
    as [_ Eb _ _ _ | pos results _ _ _ _ _ Eb Hin _ | _ _ _ _ Eb | _ _ E].
  - rewrite Eb. lia.
  - rewrite Eb.
    assert (L : (1 <= List.length (filter isPlaceBlock (snd (step a st))))%nat).
    { assert (K : In (PlaceBlock pos) (filter isPlaceBlock (snd (step a st))))
        by (apply filter_In; split; [exact Hin | reflexivity]).
      destruct (filter isPlaceBlock (snd (step a st))); [destruct K | cbn; lia]. }
    lia.
  - rewrite Eb. lia.
  - rewrite E. lia.
Qed.

(** X2.  Over any sequence of frames, [placeBlock] is called once per
    release: the number of calls is the number of falling edges of the pinch
    signal, where a frame without a hand forgets the stored pinch and a
    malformed frame is skipped.  The count grows by at most that number. *)
Theorem placeBlock_calls_are_the_releases (frames : list HandResults) (st : AppState) :
  let acts := map HandsResults frames in
  List.length (filter isPlaceBlock (runLog acts st)) =
  releases (lastPinchStateRef st) (map frameSignal frames) /\
  (count (run acts st) <=
   count st + releases (lastPinchStateRef st) (map frameSignal frames))%nat.
Proof.
  cbv zeta. revert st. induction frames as [ | results rest IH]; intro st.
  - cbn. split; [reflexivity | lia].
  - cbn [map runLog run releases].
    pose proof (step_results_signal results st) as S. cbv zeta in S.
    pose proof (step_count_le_placeBlock_calls (HandsResults results) st) as C.
    destruct (IH (fst (step (HandsResults results) st))) as [IH1 IH2].
    rewrite filter_app, length_app, IH1. unfold count in *.
    destruct (frameSignal results) as [ | | pinching].
    + destruct S as [S1 S2]. rewrite S1 in *. rewrite S2 in *. cbn [List.length] in *.
      split; [reflexivity | lia].
    + destruct S as [S1 S2]. rewrite S1 in *. rewrite S2 in *. cbn [filter List.length] in *.
      split; [reflexivity | lia].
    + destruct S as [S1 S2]. rewrite S1 in *. rewrite S2 in *.
      split; [reflexivity | lia].
Qed.

(** ** The snap *)

Lemma snap_floor (c : R) : snap c = IZR (Zfloor (c + / 2)).
Proof.
  unfold snap, GRID_SIZE, JS.Math_round. rewrite Rmult_1_r.
  replace (c / 1) with c by field. reflexivity.
Qed.

Lemma snap_le (c c' : R) : c <= c' -> snap c <= snap c'.
Proof.
  intro H. rewrite !snap_floor. apply IZR_le. apply Zfloor_le. lra.
Qed.

(** X3.  The snap sends every coordinate to a whole number at most half a
    cell away, leaves whole numbers where they are (so snapping twice is
    snapping once), commutes with shifts by whole cells and is monotone. *)
Theorem snap_is_a_lattice_retraction (c c' : R) (k : Z) :
  (exists n : Z, snap c = IZR n) /\
  Rabs (snap c - c) <= / 2 /\
  snap (snap c) = snap c /\
  snap (IZR k) = IZR k /\
  snap (c + IZR k) = snap c + IZR k /\
  (c <= c' -> snap c <= snap c').
Proof.
  pose proof (Zfloor_bound (c + / 2)) as B.
  split; [exists (Zfloor (c + / 2)); apply snap_floor | ].
  split; [rewrite snap_floor; apply Rabs_le; lra | ].
  split; [rewrite (snap_floor c); apply snap_IZR | ].
  split; [apply snap_IZR | ].
  split; [ | apply snap_le].
  rewrite !snap_floor, <- plus_IZR. f_equal.
  replace (c + IZR k + / 2) with (c + / 2 + IZR k) by ring.
  apply Zfloor_addz.
Qed.

(** ** The target point for the camera of the component *)

Lemma unproject_cameraAtOrigin (fov aspect near far X Y : R) :
  halfFovTan fov <> 0 -> aspect <> 0 -> 0 < near -> near < far ->
  unproject (Vector3.mk X Y (5 / 10)) (cameraAtOrigin fov aspect near far) =
  Vector3.mk (aspect * halfFovTan fov * X * (4 * far * near / (far + 3 * near)))
             (halfFovTan fov * Y * (4 * far * near / (far + 3 * near)))
             (- (4 * far * near / (far + 3 * near))).
Proof.
  intros HT Ha Hn Hf. unfold unproject, cameraAtOrigin, PerspectiveCamera.position_set.
  cbn [PerspectiveCamera.projectionMatrixInverse PerspectiveCamera.matrixWorld].
  rewrite projectionMatrixInverse_new by (auto; lra).
  unfold PerspectiveCamera.new, PerspectiveCamera.updateProjectionMatrix.
  cbn [PerspectiveCamera.matrixWorld].
  unfold applyMatrix4, Matrix4.identity.
  matrix_fields. cbn [Vector3.x Vector3.y Vector3.z]. cbv zeta.
  generalize (halfFovTan fov). intro T.
  apply Vector3_ext; field; repeat split; try lra.
Qed.

Lemma sqrt_sum_pos (u v : R) : 0 < sqrt (u * u + v * v + 1).
Proof. apply sqrt_lt_R0. nra. Qed.

Lemma normalize_scaled (u v W : R) :
  0 < W ->
  Vector3.normalize (Vector3.mk (u * W) (v * W) (- W)) =
  Vector3.mk (u / sqrt (u * u + v * v + 1)) (v / sqrt (u * u + v * v + 1))
             (- 1 / sqrt (u * u + v * v + 1)).
Proof.
  intro HW. pose proof (sqrt_sum_pos u v) as HS.
  assert (L : Vector3.length (Vector3.mk (u * W) (v * W) (- W)) =
              W * sqrt (u * u + v * v + 1)).
  { unfold Vector3.length, JS.Math_sqrt. cbn [Vector3.x Vector3.y Vector3.z].
    replace (u * W * (u * W) + v * W * (v * W) + - W * - W)
      with (W * W * (u * u + v * v + 1)) by ring.
    rewrite sqrt_mult by nra. rewrite sqrt_square by lra. reflexivity. }
  unfold Vector3.normalize. rewrite L. unfold JS.or_else.
  assert (N : W * sqrt (u * u + v * v + 1) <> 0) by nra.
  apply strict_eq_false_iff in N. rewrite N.
  unfold Vector3.divideScalar, Vector3.multiplyScalar.
  cbn [Vector3.x Vector3.y Vector3.z].
  apply Vector3_ext; field; split; lra.
Qed.

Lemma targetPos_cameraAtOrigin (fov aspect near far x y : R) :
  0 < fov < 180 -> aspect <> 0 -> 0 < near < far ->
  let u := aspect * halfFovTan fov * ndcX x in
  let v := halfFovTan fov * ndcY y in
  targetPos (cameraAtOrigin fov aspect near far) x y =
  Vector3.mk (6 * u / sqrt (u * u + v * v + 1))
             (6 * v / sqrt (u * u + v * v + 1))
             (- 6 / sqrt (u * u + v * v + 1)).
Proof.
  intros Hfov Ha Hnf u v. pose proof (halfFovTan_pos fov Hfov) as HT.
  pose proof (sqrt_sum_pos u v) as HS.
  unfold targetPos. cbv zeta.
  rewrite unproject_cameraAtOrigin by lra.
  unfold cameraAtOrigin, PerspectiveCamera.position_set.
  cbn [PerspectiveCamera.position].
  fold u. fold v.
  set (W := 4 * far * near / (far + 3 * near)).
  assert (HW : 0 < W).
  { unfold W. apply Rdiv_lt_0_compat; [ | lra]. apply Rmult_lt_0_compat; lra. }
  unfold Vector3.sub. cbn [Vector3.x Vector3.y Vector3.z].
  replace (u * W - 0) with (u * W) by ring.
  replace (v * W - 0) with (v * W) by ring.
  replace (- W - 0) with (- W) by ring.
  rewrite normalize_scaled by exact HW.
  unfold Vector3.add, Vector3.clone, Vector3.multiplyScalar, BUILD_DISTANCE.
  cbn [Vector3.x Vector3.y Vector3.z].
  apply Vector3_ext; field; lra.
Qed.






(** ** Where cubes can be placed *)













(** ** The scene and the store *)

Lemma same_refl (g : Group.t) : Group.same g g = true.
Proof.
  unfold Group.same. rewrite eqb_reflx, andb_true_r.
  apply equals_true_iff. reflexivity.
Qed.

Lemma remove_all_children (cubes others : list Group.t) :
  fold_left Scene.remove cubes (Scene.mk (cubes ++ others)) = Scene.mk others.
Proof.
  induction cubes as [ | c rest IH]; cbn [fold_left app].
  - reflexivity.
  - unfold Scene.remove at 2. cbn [Scene.children Scene.splice_out].
    rewrite same_refl. exact IH.
Qed.

Lemma sceneShowsStore_placeBlock (pos : Vector3.t) (st : AppState) :
  sceneShowsStore st -> sceneShowsStore (placeBlock pos st).
Proof.
  unfold sceneShowsStore, placeBlock. intro H. rewrite H.
  destruct (exists_at pos (placedCubesRef st)); [exact H | reflexivity].
Qed.

Lemma sceneShowsStore_step (a : Action) (st : AppState) :
  isMountThree a = false -> sceneShowsStore st -> sceneShowsStore (fst (step a st)).
Proof.
  intros Ha H. destruct a as [c v w h | w h | results | ]; [discriminate | | | ];
    cbn [step fst].
  - unfold handleResize. destruct (cameraRef st); exact H.
  - destruct (results_cases results st)
      as [Hn | [Ht | (landmarks & others & thumbTip & indexTip & -> & H4 & H8)]].
    + rewrite (onResults_noHand st results Hn). cbn [fst].
      destruct (previewCubeRef st); exact H.
    + rewrite Ht. exact H.
    + rewrite (onResults_hand st landmarks others thumbTip indexTip H4 H8).
      cbv zeta. cbn [fst].
      set (pinching := isPinching thumbTip indexTip).
      set (pos := getSnappedWorldPosition (cameraRef st)
                    (midpointX thumbTip indexTip) (midpointY thumbTip indexTip)).
      assert (A : sceneShowsStore (afterPreview pos pinching st)).
      { unfold afterPreview. destruct (previewCubeRef st); exact H. }
      destruct (lastPinchStateRef st && negb pinching).
      * apply (sceneShowsStore_placeBlock pos) in A. exact A.
      * exact A.
  - unfold resetScene, sceneShowsStore in *. rewrite H. cbn [sceneRef placedCubesRef].
    rewrite <- (app_nil_r (placedCubesRef st)) at 2.
    rewrite remove_all_children. reflexivity.
Qed.

Lemma sceneShowsStore_run (acts : list Action) (st : AppState) :
  noRemount acts = true -> sceneShowsStore st -> sceneShowsStore (run acts st).
Proof.
  revert st. induction acts as [ | a rest IH]; intros st Hn H; cbn [run].
  - exact H.
  - cbn in Hn. apply andb_true_iff in Hn. destruct Hn as [Ha Hr].
    apply negb_true_iff in Ha.
    apply IH; [exact Hr | ]. apply sceneShowsStore_step; assumption.
Qed.

(** X6.  When the initialisation effect runs once, the cubes the scene shows
    are the cubes of the store, in the same order, in every later state and
    after every [placeBlock]; after [resetScene] the scene shows none. *)
Theorem scene_children_are_the_store
    (innerWidth innerHeight : R) (acts : list Action) :
  noRemount acts = true ->
  let st := run (MountThree true true innerWidth innerHeight :: acts) initialState in
  sceneRef st = Some (Scene.mk (placedCubesRef st)) /\
  sceneRef (resetScene st) = Some (Scene.mk []) /\
  forall pos : Vector3.t,
    sceneRef (placeBlock pos st) = Some (Scene.mk (placedCubesRef (placeBlock pos st))).
Proof.
  intros Hn st.
  assert (H : sceneShowsStore st).
  { unfold st. cbn [run]. apply sceneShowsStore_run; [exact Hn | reflexivity]. }
  split; [exact H | ]. split.
  - pose proof (sceneShowsStore_step ClickClearScene st eq_refl H) as R.
    unfold sceneShowsStore in R, H. cbn [step fst] in R. rewrite R.
    unfold resetScene. rewrite H. reflexivity.
  - intro pos. apply (sceneShowsStore_placeBlock pos st H).
Qed.

Lemma scene_children_are_the_store_witness :
  noRemount [HandsResults pinchedAtCenter; HandsResults openAtCenter] = true /\
  sceneRef (resetScene
              (run [MountThree true true 16 9; HandsResults pinchedAtCenter;
                    HandsResults openAtCenter] initialState)) =
  Some (Scene.mk []).
Proof.
  split; [reflexivity | ].
  apply (scene_children_are_the_store 16 9
           [HandsResults pinchedAtCenter; HandsResults openAtCenter] eq_refl).
Defined.

(** ** Resizing the window *)

(** X7.  [handleResize] rebuilds the camera: a resize right after the
    initialisation gives the state the initialisation gives for the new
    window size, of two resizes the last one wins and, for a positive size,
    the screen centre still snaps to (0, 0, -6).  Without a camera it does nothing, and it never touches the
    scene, the preview, the store, the pinch state or the count. *)
Theorem resize_rebuilds_the_camera (w h : R) (st : AppState) :
  (forall w0 h0 : R,
     handleResize w h (initThree true true w0 h0 st) = initThree true true w h st) /\
  (forall w' h' : R,
     handleResize w h (handleResize w' h' st) = handleResize w h st) /\
  (cameraRef st = None -> handleResize w h st = st) /\
  (0 < w -> 0 < h -> forall w0 h0 : R,
     getSnappedWorldPosition
       (cameraRef (handleResize w h (initThree true true w0 h0 st)))
       (1 / 2) (1 / 2) = Vector3.mk 0 0 (- 6)) /\
  sceneRef (handleResize w h st) = sceneRef st /\
  previewCubeRef (handleResize w h st) = previewCubeRef st /\
  placedCubesRef (handleResize w h st) = placedCubesRef st /\
  lastPinchStateRef (handleResize w h st) = lastPinchStateRef st /\
  blockCount (handleResize w h st) = blockCount st.
Proof.
  split; [intros w0 h0; reflexivity | ].
  split.
  { intros w' h'. unfold handleResize.
    destruct (cameraRef st) as [camera | ] eqn:E; cbn [cameraRef]; [ | rewrite E];
      reflexivity. }
  split.
  { intro H. unfold handleResize. rewrite H. reflexivity. }
  split.
  { intros Hw Hh w0 h0.
    change (cameraRef (handleResize w h (initThree true true w0 h0 st)))
      with (Some (cameraAtOrigin 70 (w / h) (1 / 100) 100)).
    apply getSnappedWorldPosition_center; try lra.
    apply Rmult_integral_contrapositive_currified; [lra | ].
    apply Rinv_neq_0_compat; lra. }
  unfold handleResize. destruct (cameraRef st); repeat split; reflexivity.
Qed.

(** ** The preview and the pinch *)

Lemma previewFollowsPinch_step (a : Action) (st : AppState) :
  isMountThree a = false ->
  previewFollowsPinch st -> previewFollowsPinch (fst (step a st)).
Proof.
  intros Ha (preview & Hp & Hv).
  destruct a as [c v w h | w h | results | ]; [discriminate | | | ];
    cbn [step fst].
  - exists preview. unfold handleResize. destruct (cameraRef st); split; assumption.
  - destruct (results_cases results st)
      as [Hn | [Ht | (landmarks & others & thumbTip & indexTip & -> & H4 & H8)]].
    + rewrite (onResults_noHand st results Hn). cbn [fst]. rewrite Hp.
      eexists. split; reflexivity.
    + rewrite Ht. exists preview. split; assumption.
    + rewrite (onResults_hand st landmarks others thumbTip indexTip H4 H8).
      cbv zeta. cbn [fst].
      set (pinching := isPinching thumbTip indexTip).
      set (pos := getSnappedWorldPosition (cameraRef st)
                    (midpointX thumbTip indexTip) (midpointY thumbTip indexTip)).
      exists (Group.set_visible (Group.position_copy preview pos) pinching).
      split; [ | reflexivity].
      assert (A : previewCubeRef (afterPreview pos pinching st) =
                  Some (Group.set_visible (Group.position_copy preview pos) pinching)).
      { unfold afterPreview. rewrite Hp. reflexivity. }
      cbn [previewCubeRef set_lastPinchStateRef].
      destruct (lastPinchStateRef st && negb pinching); [ | exact A].
      destruct (placeBlock_cases pos (afterPreview pos pinching st))
        as [E | (_ & _ & _ & _ & _ & _ & Hpv & _)].
      * rewrite E. exact A.
      * rewrite Hpv. exact A.
  - exists preview. unfold resetScene. destruct (sceneRef st); split; assumption.
Qed.

Lemma previewFollowsPinch_run (acts : list Action) (st : AppState) :
  noRemount acts = true -> previewFollowsPinch st -> previewFollowsPinch (run acts st).
Proof.
  revert st. induction acts as [ | a rest IH]; intros st Hn H; cbn [run].
  - exact H.
  - cbn in Hn. apply andb_true_iff in Hn. destruct Hn as [Ha Hr].
    apply negb_true_iff in Ha.
    apply IH; [exact Hr | ]. apply previewFollowsPinch_step; assumption.
Qed.

(** X8.  When the initialisation effect runs once, the preview cube is
    visible exactly while the stored pinch state is true, in every later
    state. *)
Theorem preview_is_visible_exactly_while_pinching
    (innerWidth innerHeight : R) (acts : list Action) :
  noRemount acts = true ->
  let st := run (MountThree true true innerWidth innerHeight :: acts) initialState in
  (controllerState st = Previewing <-> lastPinchStateRef st = true) /\
  (controllerState st = Idle <-> lastPinchStateRef st = false).
Proof.
  intros Hn st.
  assert (H : previewFollowsPinch st).
  { unfold st. cbn [run]. apply previewFollowsPinch_run; [exact Hn | ].
    eexists. split; reflexivity. }
  destruct H as (preview & Hp & Hv). unfold controllerState. rewrite Hp, Hv.
  destruct (lastPinchStateRef st); split; split; intro K;
    try reflexivity; discriminate.
Qed.

Lemma preview_is_visible_exactly_while_pinching_witness :
  noRemount [HandsResults pinchedAtCenter] = true /\
  controllerState
    (run [MountThree true true 16 9; HandsResults pinchedAtCenter] initialState) =
  Previewing.
Proof.
  split; [reflexivity | ].
  apply (preview_is_visible_exactly_while_pinching 16 9
           [HandsResults pinchedAtCenter] eq_refl).
  change (run [MountThree true true 16 9; HandsResults pinchedAtCenter] initialState)
    with pinchingState.
  rewrite pinchingState_eq. reflexivity.
Defined.

(** ** Clearing *)

(** X9.  On a mounted scene, clearing twice is clearing once; after a clear
    every position is free and the count is 0, so the next [placeBlock]
    stores exactly its position with count 1; the clear leaves the pinch
    state, the preview and the camera as they are. *)
Theorem resetScene_empties_and_frees (st : AppState) (pos : Vector3.t) :
  sceneRef st <> None ->
  resetScene (resetScene st) = resetScene st /\
  (forall q : Vector3.t, occupied q (resetScene st) = false) /\
  count (resetScene st) = 0%nat /\
  storePositions (placeBlock pos (resetScene st)) = [pos] /\
  count (placeBlock pos (resetScene st)) = 1%nat /\
  lastPinchStateRef (resetScene st) = lastPinchStateRef st /\
  previewCubeRef (resetScene st) = previewCubeRef st /\
  cameraRef (resetScene st) = cameraRef st.
Proof.
  intro Hs. unfold resetScene at 2 3 4 5 6 7 8 9 10.
  destruct (sceneRef st) as [scene | ] eqn:E; [ | contradiction].
  split; [reflexivity | ].
  split; [intro q; reflexivity | ].
  split; [reflexivity | ].
  unfold placeBlock, storePositions, count. cbn.
  destruct pos. repeat split; reflexivity.
Qed.

Lemma resetScene_empties_and_frees_witness :
  sceneRef mountedState <> None /\
  count (placeBlock (Vector3.mk 2 0 (- 6)) (resetScene mountedState)) = 1%nat.
Proof.
  assert (Hs : sceneRef mountedState <> None)
    by (rewrite mountedState_eq; discriminate).
  split; [exact Hs | ].
  apply (resetScene_empties_and_frees mountedState (Vector3.mk 2 0 (- 6)) Hs).
Defined.

(** ** Screen axes and world axes *)

Lemma scaled_sign (u s : R) : 0 < s -> (0 < 6 * u / s <-> 0 < u) /\ (6 * u / s < 0 <-> u < 0).
Proof.
  intro Hs.
  assert (E : 6 * u / s * s = 6 * u) by (field; lra).
  assert (P : 0 < / s) by (apply Rinv_0_lt_compat; exact Hs).
  assert (F : 6 * u / s = 6 * u * / s) by reflexivity.
  split; split; intro H.
  - nra.
  - rewrite F. apply Rmult_lt_0_compat; lra.
  - nra.
  - rewrite F. nra.
Qed.

(** X10.  For a camera at the origin with a positive aspect ratio, the right
    half of the screen maps to positive world x and the upper half (screen
    y below 1/2) to positive world y; mirroring the screen point mirrors the
    target point. *)
Theorem screen_axes_map_to_world_axes (fov aspect near far x y : R) :
  0 < fov < 180 -> 0 < aspect -> 0 < near < far ->
  let camera := cameraAtOrigin fov aspect near far in
  let p := targetPos camera x y in
  (1 / 2 < x <-> 0 < Vector3.x p) /\
  (x < 1 / 2 <-> Vector3.x p < 0) /\
  (y < 1 / 2 <-> 0 < Vector3.y p) /\
  (1 / 2 < y <-> Vector3.y p < 0) /\
  Vector3.x (targetPos camera (1 - x) y) = - Vector3.x p /\
  Vector3.y (targetPos camera x (1 - y)) = - Vector3.y p /\
  Vector3.z (targetPos camera (1 - x) (1 - y)) = Vector3.z p.
Proof.
  intros Hfov Ha Hnf camera p.
  assert (Ha' : aspect <> 0) by lra.
  pose proof (halfFovTan_pos fov Hfov) as HT.
  unfold p, camera. rewrite !targetPos_cameraAtOrigin by assumption. cbv zeta.
  cbn [Vector3.x Vector3.y Vector3.z].
  set (T := halfFovTan fov) in *.
  assert (HaT : 0 < aspect * T) by (apply Rmult_lt_0_compat; assumption).
  assert (NX : ndcX (1 - x) = - ndcX x) by (unfold ndcX; ring).
  assert (NY : ndcY (1 - y) = - ndcY y) by (unfold ndcY; ring).
  rewrite NX, NY.
  set (u := aspect * T * ndcX x). set (v := T * ndcY y).
  replace (aspect * T * - ndcX x) with (- u) by (unfold u; ring).
  replace (T * - ndcY y) with (- v) by (unfold v; ring).
  replace (- u * - u) with (u * u) by ring.
  replace (- v * - v) with (v * v) by ring.
  pose proof (sqrt_sum_pos u v) as HS.
  destruct (scaled_sign u _ HS) as [Xp Xn].
  destruct (scaled_sign v _ HS) as [Yp Yn].
  assert (Ux : ndcX x = 2 * x - 1) by (unfold ndcX; ring).
  assert (Vy : ndcY y = 1 - 2 * y) by (unfold ndcY; ring).
  assert (U1 : 0 < u <-> 1 / 2 < x).
  { unfold u. rewrite Ux. split; intro H; nra. }
  assert (U2 : u < 0 <-> x < 1 / 2).
  { unfold u. rewrite Ux. split; intro H; nra. }
  assert (V1 : 0 < v <-> y < 1 / 2).
  { unfold v. rewrite Vy. split; intro H; nra. }
  assert (V2 : v < 0 <-> 1 / 2 < y).
  { unfold v. rewrite Vy. split; intro H; nra. }
  split; [rewrite Xp; symmetry; exact U1 | ].
  split; [rewrite Xn; symmetry; exact U2 | ].
  split; [rewrite Yp; symmetry; exact V1 | ].
  split; [rewrite Yn; symmetry; exact V2 | ].
  split; [field; lra | ]. split; [field; lra | reflexivity].
Qed.

Lemma screen_axes_map_to_world_axes_witness :
  0 < Vector3.y (targetPos (cameraAtOrigin 70 (16 / 9) (1 / 100) 100) (1 / 2) (1 / 4)).
Proof.
  assert (H1 : 0 < 70 < 180) by lra.
  assert (H2 : 0 < 16 / 9) by lra.
  assert (H3 : 0 < 1 / 100 < 100) by lra.
  apply (screen_axes_map_to_world_axes 70 (16 / 9) (1 / 100) 100 (1 / 2) (1 / 4)
           H1 H2 H3).
  lra.
Defined.

(** ** The two tips *)

Lemma dist_sym (a b : Landmark.t) : dist a b = dist b a.
Proof.
  unfold dist.
  rewrite (pow2_sub_swap (Landmark.x a) (Landmark.x b)),
    (pow2_sub_swap (Landmark.y a) (Landmark.y b)),
    (pow2_sub_swap (Landmark.z a) (Landmark.z b)).
  reflexivity.
Qed.

Lemma dist_not_negative (a b : Landmark.t) : (dist a b <? 0)%float = false.
Proof.
  unfold dist. rewrite ltb_spec, sqrt_spec.
  set (s := (JS.Math_pow2 (Landmark.x a - Landmark.x b) +
             JS.Math_pow2 (Landmark.y a - Landmark.y b) +
             JS.Math_pow2 (Landmark.z a - Landmark.z b))%float).
  pose proof (SFsqrt_sign prec emax (Prim2SF s)) as S.
  change (Prim2SF 0) with (S754_zero false).
  unfold SF64sqrt.
  destruct (SFsqrt prec emax (Prim2SF s)) as [z | z | | z m e];
    try reflexivity; subst z; reflexivity.
Qed.

(** X11.  The pinch test does not depend on which tip is the thumb: the
    computed distance and the test are symmetric in the two tips, and the
    callback gives the same state and log when the two tips are swapped.
    Tips with finite coordinates that coincide always pinch, and the
    computed distance is never below zero.  The test does depend on where
    the hand is: the tips at [PINCH_THRESHOLD] and 0 on the x axis do not
    pinch, and moved by 1 along that axis they do, since the moved
    coordinates are rounded. *)
Theorem pinch_test_ignores_order_but_not_offset (a b : Landmark.t) :
  dist a b = dist b a /\
  isPinching a b = isPinching b a /\
  (JS.isFinite (Landmark.x a) = true -> JS.isFinite (Landmark.y a) = true ->
   JS.isFinite (Landmark.z a) = true -> isPinching a a = true) /\
  (dist a b <? 0)%float = false /\
  (forall st : AppState, onResults (handFrame a b) st = onResults (handFrame b a) st) /\
  isPinching (Landmark.mk PINCH_THRESHOLD 0 0) (Landmark.mk 0 0 0) = false /\
  isPinching (Landmark.mk (PINCH_THRESHOLD + 1) 0 0) (Landmark.mk (0 + 1) 0 0) = true.
Proof.
  assert (P : isPinching a b = isPinching b a)
    by (unfold isPinching, JS.lt; rewrite dist_sym; reflexivity).
  split; [apply dist_sym | ].
  split; [exact P | ].
  split; [apply isPinching_same | ].
  split; [apply dist_not_negative | ].
  split; [ | split; vm_compute; reflexivity].
  intro st. rewrite !onResults_handFrame.
  assert (MX : midpointX a b = midpointX b a)
    by (unfold midpointX; rewrite float_add_comm; reflexivity).
  assert (MY : midpointY a b = midpointY b a)
    by (unfold midpointY; rewrite float_add_comm; reflexivity).
  rewrite P, MX, MY. reflexivity.
Qed.

(** ** Cubes stay until the clear *)

Lemma occupied_step (a : Action) (pos : Vector3.t) (st : AppState) :
  a <> ClickClearScene ->
  occupied pos st = true -> occupied pos (fst (step a st)) = true.
Proof.
  intros Ha Ho. unfold occupied in *.
  destruct (step_store_change a st)
    as [Ep _ _ _ _ | q results _ _ _ _ Ep _ _ _ | E _ _ _ _ | E _ _].
  - rewrite Ep. exact Ho.
  - rewrite Ep. apply exists_at_true_iff. rewrite map_app. apply in_or_app. left.
    apply exists_at_true_iff. exact Ho.
  - contradiction.
  - contradiction.
Qed.

(** X12.  A placed cube stays until the scene is cleared: over any actions
    without a clear its position stays occupied, the count does not
    decrease, and [placeBlock] there changes nothing. *)
Theorem cube_stays_until_clear (acts : list Action) (pos : Vector3.t) (st : AppState) :
  noClear acts = true ->
  occupied pos st = true ->
  occupied pos (run acts st) = true /\
  (count st <= count (run acts st))%nat /\
  placeBlock pos (run acts st) = run acts st.
Proof.
  intros Hn Ho.
  assert (H : occupied pos (run acts st) = true /\
              (blockCount st <= blockCount (run acts st))%nat).
  { revert st Ho. induction acts as [ | a rest IH]; intros st Ho; cbn [run].
    - split; [exact Ho | lia].
    - cbn in Hn. apply andb_true_iff in Hn. destruct Hn as [Ha Hr].
      assert (Na : a <> ClickClearScene) by (intro K; rewrite K in Ha; discriminate).
      destruct (IH Hr (fst (step a st)) (occupied_step a pos st Na Ho)) as [I1 I2].
      split; [exact I1 | ].
      destruct (step_store_change a st)
        as [_ Eb _ _ _ | q results _ _ _ _ _ Eb _ _ | E _ _ _ _ | E _ _];
        try contradiction; lia. }
  destruct H as [H1 H2]. split; [exact H1 | ]. split; [exact H2 | ].
  apply placeBlock_occupied. exact H1.
Qed.

Lemma cube_stays_until_clear_witness :
  noClear [HandsResults pinchedAtCenter; WindowResize 9 16; HandsResults openAtCenter] = true /\
  occupied (Vector3.mk 2 0 (- 6)) (placeBlock (Vector3.mk 2 0 (- 6)) mountedState) = true /\
  occupied (Vector3.mk 2 0 (- 6))
    (run [HandsResults pinchedAtCenter; WindowResize 9 16; HandsResults openAtCenter]
         (placeBlock (Vector3.mk 2 0 (- 6)) mountedState)) = true.
Proof.
  assert (Ho : occupied (Vector3.mk 2 0 (- 6))
                 (placeBlock (Vector3.mk 2 0 (- 6)) mountedState) = true).
  { apply occupied_after_placeBlock. rewrite mountedState_eq. discriminate. }
  split; [reflexivity | ]. split; [exact Ho | ].
  apply (cube_stays_until_clear
           [HandsResults pinchedAtCenter; WindowResize 9 16; HandsResults openAtCenter]
           (Vector3.mk 2 0 (- 6)) _ eq_refl Ho).
Defined.
